(** * Context expansion pipeline (02_expand_context.py): model and properties

    A shallow embedding of the reusable functions of the notebook
    [10_guides_zero_to_hero/02_expand_context.py]:
    [count_tokens], [calculate_metrics], [generate_response],
    [create_expanded_context], [test_layered_contexts], [compress_context],
    [evaluate_response_quality], [retrieve_relevant_info] and
    [create_rag_context].

    Conventions.
    - A Python [str] is a [string]; a character is read as a code point
      below 256 (ASCII and Latin-1), which fixes [str.split], [str.lower]
      and the regular expression class [\d] on it.
    - A Python number is either an [int] or a [float] ([number]). The
      token counts and the metrics derived from them are carried by the
      exact rational value of the operations, in [Q]: the rounding of the
      products and quotients is not part of the model, and what is stated
      of them (their type, their sign, whether they are zero or whole)
      holds of the rounded values as well. The score
      that [float] reads off a literal is a binary64 number, correctly
      rounded ([spec_float], with the operations of [SpecFloat]).
    - An exception is a value of [exn]; fallible code returns [result].
    - A global name of the notebook is bound or not ([binding]); a name
      that no cell binds raises [NameError] where it is used.
    - The generation capability is an oracle [client]; every call is
      recorded in a log, which is the state threaded through the functions
      that call it. *)

From Stdlib Require Import List Arith ZArith QArith Lia Bool.
From Stdlib Require Import Strings.Ascii Strings.String Numbers.DecimalString.
From Stdlib Require Import SpecFloat.
From Equations Require Import Equations.
Import ListNotations.

Close Scope Q_scope.
Open Scope list_scope.
Open Scope string_scope.
Open Scope nat_scope.

(** Concatenation of lists, written apart from that of strings. *)
Notation "l1 +++ l2" := (@List.app _ l1 l2)
  (at level 60, right associativity).

(** ** Python strings *)

Module PyStr.

(** The line feed, and the blank-line separator written "\n\n". *)
Definition NL : string := String "010"%char EmptyString.
Definition NLNL : string := NL ++ NL.

(** [str.isspace] on one code point below 256: tab, line feed, vertical
    tab, form feed, carriage return, the four separators 0x1C..0x1F,
    space, NEL (0x85) and the no-break space (0xA0). *)
Definition is_space (c : ascii) : bool :=
  let n := nat_of_ascii c in
  ((9 <=? n) && (n <=? 13)) || ((28 <=? n) && (n <=? 32))
  || (n =? 133) || (n =? 160).

(** The class [\d] of a [str] pattern, on code points below 256. *)
Definition is_digit (c : ascii) : bool :=
  let n := nat_of_ascii c in (48 <=? n) && (n <=? 57).

(** [str.lower] on one code point below 256: A..Z and the Latin-1
    capitals 0xC0..0xDE (the multiplication sign 0xD7 apart). *)
Definition lower_char (c : ascii) : ascii :=
  let n := nat_of_ascii c in
  if ((65 <=? n) && (n <=? 90))
     || ((192 <=? n) && (n <=? 222) && negb (n =? 215))
  then ascii_of_nat (n + 32) else c.

Fixpoint lower (s : string) : string :=
  match s with
  | EmptyString => EmptyString
  | String c s' => String (lower_char c) (lower s')
  end.

(** [s.split()] with no argument: the maximal runs of non-space
    characters, in order; [cur] is the run being read. *)
Fixpoint split_from (cur : string) (s : string) : list string :=
  match s with
  | EmptyString =>
      match cur with EmptyString => [] | _ => [cur] end
  | String c s' =>
      if is_space c then
        match cur with
        | EmptyString => split_from EmptyString s'
        | _ => cur :: split_from EmptyString s'
        end
      else split_from (cur ++ String c EmptyString) s'
  end.

Definition split (s : string) : list string := split_from EmptyString s.

(** [sep.join(parts)]. *)
Definition join (sep : string) (parts : list string) : string :=
  String.concat sep parts.

(** [needle in hay]: [needle] occurs in [hay] as a substring. *)
Fixpoint contains (needle hay : string) : bool :=
  String.prefix needle hay
  || match hay with
     | EmptyString => false
     | String _ hay' => contains needle hay'
     end.

(** [str(i)] for a non-negative integer, as an f-string renders it. *)
Definition str_of_nat (n : nat) : string :=
  NilEmpty.string_of_uint (Nat.to_uint n).

(** Truthiness of a string and of an optional argument ([None] and the
    empty value are both false). *)
Definition truthy_str (s : string) : bool :=
  match s with EmptyString => false | _ => true end.

Definition truthy_list {A} (l : list A) : bool :=
  match l with [] => false | _ => true end.

End PyStr.
Import PyStr.

(** ** Python numbers and exceptions *)

Inductive exn : Set :=
| ZeroDivisionError
| IndexError
| ValueError
| NameError.

Inductive result (A : Type) : Type :=
| Ok (a : A)
| Raise (e : exn).
Arguments Ok {A} a.
Arguments Raise {A} e.

Definition rbind {A B} (r : result A) (k : A -> result B) : result B :=
match r with
| Ok a => k a
| Raise e => Raise e
end.

Inductive number : Set :=
| PyInt (z : Z)
| PyFloat (q : Q).

Definition num_val (x : number) : Q :=
match x with
| PyInt z => inject_Z z
| PyFloat q => q
end.

Definition is_int (x : number) : bool :=
match x with PyInt _ => true | PyFloat _ => false end.

(** [x > 0]. *)
Definition num_gt0 (x : number) : bool :=
negb (Qle_bool (num_val x) 0%Q).

(** True division [a / b]: a float, or [ZeroDivisionError]. *)
Definition truediv (a b : number) : result number :=
if Qeq_bool (num_val b) 0%Q then Raise ZeroDivisionError
else Ok (PyFloat (num_val a / num_val b)%Q).

(** [a * b]: an int when both are, a float otherwise. *)
Definition num_mul (a b : number) : number :=
match a, b with
| PyInt x, PyInt y => PyInt (x * y)%Z
| _, _ => PyFloat (num_val a * num_val b)%Q
end.

(** The literal [1.3]. *)
Definition float_1_3 : Q := (13 # 10)%Q.

(** ** Token counting and metrics *)

Record Metrics : Set := mkMetrics {
  prompt_tokens : number;
  response_tokens : number;
  token_efficiency : number;
  latency : Q;
  latency_per_1k : number
}.

Section Metering.

(** The module-level [tokenizer]: [Some encode] for an exact tokenizer
    (its [encode] gives the token list), [None] when [USE_OPENAI] is
    false. *)
Variable tokenizer : option (string -> list nat).

Definition count_tokens (text : string) : number :=
  match tokenizer with
  | Some encode => PyInt (Z.of_nat (List.length (encode text)))
  | None =>
      PyFloat (inject_Z (Z.of_nat (List.length (split text))) * float_1_3)%Q
  end.

Definition calculate_metrics (prompt response : string) (lat : Q)
  : result Metrics :=
  let p_tokens := count_tokens prompt in
  let r_tokens := count_tokens response in
  rbind (if num_gt0 p_tokens then truediv r_tokens p_tokens
         else Ok (PyInt 0)) (fun efficiency =>
  rbind (if num_gt0 p_tokens
         then rbind (truediv (PyFloat lat) p_tokens)
                (fun q => Ok (num_mul q (PyInt 1000)))
         else Ok (PyInt 0)) (fun per_1k =>
  Ok {| prompt_tokens := p_tokens;
        response_tokens := r_tokens;
        token_efficiency := efficiency;
        latency := lat;
        latency_per_1k := per_1k |})).

End Metering.

(** ** The generation capability *)

(** A computation that may call the generation capability: it reads and
    extends the log of prompts sent so far, and may raise. *)
Definition Gen (A : Type) : Type := list string -> result A * list string.

Definition ret {A} (a : A) : Gen A := fun log => (Ok a, log).

Definition bind {A B} (c : Gen A) (k : A -> Gen B) : Gen B :=
  fun log =>
    match c log with
    | (Ok a, log') => k a log'
    | (Raise e, log') => (Raise e, log')
    end.

Definition lift {A} (r : result A) : Gen A := fun log => (r, log).

Notation "x <- c ;; k" := (bind c (fun x => k))
  (at level 61, c at next level, right associativity).
Notation "' pat <- c ;; k" := (bind c (fun x => match x with pat => k end))
  (at level 61, pat pattern, c at next level, right associativity).

(** Python dictionaries keep insertion order: assigning to an existing key
    replaces its value in place, assigning to a new key appends. *)
Definition dict (V : Type) : Type := list (string * V).

Fixpoint dict_set {V} (d : dict V) (k : string) (v : V) : dict V :=
  match d with
  | [] => [(k, v)]
  | (k', v') :: d' =>
      if String.eqb k' k then (k, v) :: d' else (k', v') :: dict_set d' k v
  end.

Definition keys {V} (d : dict V) : list string := map fst d.
Definition values {V} (d : dict V) : list V := map snd d.

Section Pipeline.

Variable tokenizer : option (string -> list nat).

(** [client n prompt]: the completion text and the elapsed time of the
    call number [n] (counted from 0) to the chat completion service. *)
Variable client : nat -> string -> string * Q.

(** [generate_response] sends one request and returns the text of the
    first choice with the time the call took. This is the branch taken when
    [USE_OPENAI] is set, as the notebook sets it; the other branch is left
    to the reader's own client, which [client] covers as well. *)
Definition generate_response (prompt : string) : Gen (string * Q) :=
  fun log => (Ok (client (List.length log) prompt), log +++ [prompt]).

(** *** Layer experiments *)

(** The loop [for layer_name, layer_content in context_layers.items()]. *)
Fixpoint layers_loop (base_prompt : string) (items : list (string * string))
  (layer_results : dict Metrics) : Gen (dict Metrics) :=
  match items with
  | [] => ret layer_results
  | (layer_name, layer_content) :: rest =>
      let combined_prompt := base_prompt ++ NLNL ++ layer_content in
      '(response, lat) <- generate_response combined_prompt ;;
      m <- lift (calculate_metrics tokenizer combined_prompt response lat) ;;
      layers_loop base_prompt rest
        (dict_set layer_results ("base+" ++ layer_name) m)
  end.

Definition test_layered_contexts (base_prompt : string)
  (context_layers : dict string) : Gen (dict Metrics) :=
  let layer_results := [] in
  '(base_response, base_latency) <- generate_response base_prompt ;;
  m <- lift (calculate_metrics tokenizer base_prompt base_response
               base_latency) ;;
  let layer_results := dict_set layer_results "base" m in
  layer_results <- layers_loop base_prompt context_layers layer_results ;;
  let all_layers := join NLNL (values context_layers) in
  let full_prompt := base_prompt ++ NLNL ++ all_layers in
  '(full_response, full_latency) <- generate_response full_prompt ;;
  m <- lift (calculate_metrics tokenizer full_prompt full_response
               full_latency) ;;
  ret (dict_set layer_results "all_layers" m).

(** *** Compression *)

Definition compress_context (context technique : string) : Gen string :=
  if String.eqb technique "summarize" then
    let prompt :=
      "Summarize the following context in a concise way that preserves "
      ++ "all key information:" ++ NL ++ context in
    '(compressed, _) <- generate_response prompt ;;
    ret compressed
  else if String.eqb technique "keywords" then
    let prompt :=
      "Extract the most important keywords and phrases from this context:"
      ++ NL ++ context ++ NL
      ++ "Format your response as a comma-separated list." in
    '(keywords, _) <- generate_response prompt ;;
    ret keywords
  else if String.eqb technique "bullet" then
    let prompt :=
      "Convert this context into a concise list of bullet points that"
      ++ NL ++ "captures all essential information:" ++ NL ++ context in
    '(bullets, _) <- generate_response prompt ;;
    ret bullets
  else ret context.

End Pipeline.

(** ** Regular expression scanning and float parsing

    What [re.findall] computes once the name [re] is bound to Python's
    regular expression module (the notebook itself never binds it, see
    [notebook_re] below). Only the pattern
    [(\d+\.\d+)] is used, so the matcher below is that of this pattern:
    leftmost match, both [\d+] greedy. Backtracking never helps here: a
    shorter first run of digits would have to be followed by a dot where
    a digit stands. *)

Module Re.

(** The longest prefix of digits, and what follows it. *)
Fixpoint span_digits (s : string) : string * string :=
  match s with
  | EmptyString => (EmptyString, EmptyString)
  | String c s' =>
      if is_digit c
      then let (d, r) := span_digits s' in (String c d, r)
      else (EmptyString, s)
  end.

(** What may follow a maximal run of digits: the end, or no digit. *)
Definition run_ends (r : string) : Prop :=
  match r with
  | EmptyString => True
  | String c _ => is_digit c = false
  end.

(** One attempt to match [\d+\.\d+] at the start of [s]: the matched text
    and the rest of the string after it. *)
Definition match_decimal (s : string) : option (string * string) :=
  match span_digits s with
  | (String _ _ as d1, String c r1) =>
      if Ascii.eqb c "." then
        match span_digits r1 with
        | (String _ _ as d2, r2) => Some (d1 ++ "." ++ d2, r2)
        | (EmptyString, _) => None
        end
      else None
  | (_, _) => None
  end.

Lemma span_digits_length (s : string) :
  String.length (fst (span_digits s)) + String.length (snd (span_digits s))
  = String.length s.
Proof.
  induction s as [|c s IH]; simpl; [reflexivity|].
  destruct (is_digit c); simpl; [|reflexivity].
  destruct (span_digits s) as [d r]; simpl in *. lia.
Qed.

Lemma match_decimal_shorter (s m rest : string) :
  match_decimal s = Some (m, rest) -> String.length rest < String.length s.
Proof.
  unfold match_decimal. intros H.
  pose proof (span_digits_length s) as L1.
  destruct (span_digits s) as [d1 r]; simpl in L1.
  destruct d1 as [|c1 d1]; [discriminate|].
  destruct r as [|c r1]; [discriminate|].
  destruct (Ascii.eqb c "."); [|discriminate].
  pose proof (span_digits_length r1) as L2.
  destruct (span_digits r1) as [d2 r2]; simpl in L2.
  destruct d2; [discriminate|]. inversion H; subst. simpl in *. lia.
Qed.

(** Matching on a value while keeping the equation that names it. *)
Definition inspect {A} (a : A) : {b : A | a = b} := exist _ a eq_refl.

(** [re.findall] for the pattern: scan from the left; after a match go on
    behind it, after a failure go on one character further. *)
Equations? findall (s : string) : list string by wf (String.length s) lt :=
  findall EmptyString := [];
  findall (String c s') with inspect (match_decimal (String c s')) := {
    | exist _ (Some (m, rest)) _ := m :: findall rest;
    | exist _ None _ := findall s' }.
Proof.
  exact (match_decimal_shorter (String c s') m rest e).
Qed.

End Re.

(** ** [float] and indexing *)

(** The value of a run of digits read in base ten. *)
Fixpoint digits_val_from (acc : Z) (s : string) : Z :=
  match s with
  | EmptyString => acc
  | String c s' =>
      digits_val_from (acc * 10 + (Z.of_nat (nat_of_ascii c) - 48))%Z s'
  end.

Definition digits_val (s : string) : Z := digits_val_from 0%Z s.

(** Binary64: 53 bits of precision, exponents below 1024. *)
Definition prec : Z := 53%Z.
Definition emax : Z := 1024%Z.

(** The binary64 number nearest to the quotient [n / d] of two positive
    integers, ties to even; infinity when it is too large. The division of
    [SpecFloat] rounds the exact quotient once, whatever the size of the
    two integers. *)
Definition nearest_ratio (n d : positive) : spec_float :=
  SFdiv prec emax (S754_finite false n 0) (S754_finite false d 0).

(** The binary64 number that the literal [d1 '.' d2] denotes. *)
Definition decimal_float (d1 d2 : string) : spec_float :=
  let scale := (10 ^ Pos.of_nat (String.length d2))%positive in
  match (digits_val d1 * Zpos scale + digits_val d2)%Z with
  | Zpos n => nearest_ratio n scale
  | _ => S754_zero false
  end.

(** The literal [0.5]. *)
Definition float_0_5 : spec_float :=
  S754_finite false 4503599627370496 (-53).

(** The float [1.0], and the order of floats. *)
Definition float_1 : spec_float := S754_finite false 4503599627370496 (-52).
Definition float_0 : spec_float := S754_zero false.
Definition float_le (x y : spec_float) : bool := SFleb x y.

(** [float(s)] on the literals [digits '.' digits]: the nearest binary64
    number. Python's [float] accepts more (signs, exponents, surrounding
    spaces); here every other string raises [ValueError], which can only
    make a failure more likely. *)
Definition py_float (s : string) : result spec_float :=
  match Re.span_digits s with
  | (String _ _ as d1, String c r1) =>
      if Ascii.eqb c "." then
        match Re.span_digits r1 with
        | (String _ _ as d2, EmptyString) => Ok (decimal_float d1 d2)
        | (_, _) => Raise ValueError
        end
      else Raise ValueError
  | (_, _) => Raise ValueError
  end.

(** [l[-1]]. *)
Fixpoint last_item {A} (l : list A) : result A :=
  match l with
  | [] => Raise IndexError
  | [x] => Ok x
  | _ :: l' => last_item l'
  end.

(** Whether a global name is bound when a cell uses it. *)
Inductive binding : Set :=
| Unbound
| Imported.

(** The notebook has no [import re] in any cell: as shipped, the name
    [re] is unbound. *)
Definition notebook_re : binding := Unbound.

(** The evaluation of [re.findall]: the name [re] is looked up first. *)
Definition lookup_re_findall (re : binding)
  : result (string -> list string) :=
  match re with
  | Unbound => Raise NameError
  | Imported => Ok Re.findall
  end.

Section Evaluator.

(** The binding of the global name [re] in the session. *)
Variable re : binding.

Variable client : nat -> string -> string * Q.

Definition eval_prompt_of (prompt response : string) (criteria : list string)
  : string :=
  let criteria_list := join NL (map (fun c => "- " ++ c) criteria) in
  "Rate the quality of the following response to a prompt. " ++ NL
  ++ "Prompt: " ++ prompt ++ NL
  ++ "Response: " ++ response ++ NL
  ++ "Evaluate based on these criteria:" ++ NL
  ++ criteria_list ++ NL
  ++ "Provide an overall score from 0.0 to 1.0.".

(** The conditional expression evaluates its condition first, so the
    first use of [re] comes right after the generation call. *)
Definition evaluate_response_quality (prompt response : string)
  (criteria : list string) : Gen spec_float :=
  let eval_prompt := eval_prompt_of prompt response criteria in
  '(evaluation, _) <- generate_response client eval_prompt ;;
  found <- lift (rbind (lookup_re_findall re)
                   (fun findall => Ok (findall evaluation))) ;;
  if truthy_list found
  then lift (rbind (lookup_re_findall re)
               (fun findall =>
                  rbind (last_item (findall evaluation)) py_float))
  else ret float_0_5.

End Evaluator.

(** ** Context layer composer *)

(** [parts.append(x)]. *)
Definition append_part (parts : list string) (x : string) : list string :=
  parts +++ [x].

(** [if arg:] on an optional string argument, then [parts.append(f arg)]. *)
Definition when_str (arg : option string) (f : string -> string)
  (parts : list string) : list string :=
  match arg with
  | Some a => if truthy_str a then append_part parts (f a) else parts
  | None => parts
  end.

(** [enumerate(l, start)]. *)
Fixpoint enumerate {A} (start : nat) (l : list A) : list (nat * A) :=
  match l with
  | [] => []
  | x :: l' => (start, x) :: enumerate (S start) l'
  end.

Definition create_expanded_context (base_prompt : string)
  (role : option string) (examples constraints : option (list string))
  (audience tone output_format : option string) : string :=
  let context_parts := [] in
  let context_parts :=
    when_str role (fun r => "You are " ++ r ++ ".") context_parts in
  let context_parts := append_part context_parts base_prompt in
  let context_parts :=
    when_str audience
      (fun a => "Your response should be suitable for " ++ a ++ ".")
      context_parts in
  let context_parts :=
    when_str tone (fun t => "Use a " ++ t ++ " tone in your response.")
      context_parts in
  let context_parts :=
    when_str output_format (fun o => "Format your response as " ++ o ++ ".")
      context_parts in
  let context_parts :=
    match constraints with
    | Some cs =>
        if truthy_list cs then
          fold_left
            (fun parts constraint => append_part parts ("- " ++ constraint))
            cs (append_part context_parts "Requirements:")
        else context_parts
    | None => context_parts
    end in
  let context_parts :=
    match examples with
    | Some es =>
        if truthy_list es then
          fold_left
            (fun parts ie =>
               append_part parts
                 ("Example " ++ str_of_nat (fst ie) ++ ":" ++ NL ++ snd ie))
            (enumerate 1 es) (append_part context_parts "Examples:")
        else context_parts
    | None => context_parts
    end in
  join NLNL context_parts.

(** The composition as the specification words it: the sections that are
    present, in the canonical order, joined by blank lines. An argument is
    present when it is given and not empty. *)
Module ComposerSpec.

Definition present_str (arg : option string) : option string :=
  match arg with
  | Some EmptyString => None
  | other => other
  end.

Definition present_list (arg : option (list string)) : option (list string) :=
  match arg with
  | Some [] => None
  | other => other
  end.

(** The sections an optional clause contributes: one, or none. *)
Definition clause (arg : option string) (render : string -> string)
  : list string :=
  match present_str arg with
  | Some a => [render a]
  | None => []
  end.

(** The label of the example at position [i], counted from 0. *)
Definition example_section (i : nat) (example : string) : string :=
  "Example " ++ str_of_nat (i + 1) ++ ":" ++ NL ++ example.

Fixpoint mapi_from {A B} (i : nat) (f : nat -> A -> B) (l : list A) : list B :=
  match l with
  | [] => []
  | x :: l' => f i x :: mapi_from (S i) f l'
  end.

Definition requirements_block (constraints : option (list string))
  : list string :=
  match present_list constraints with
  | Some cs => "Requirements:" :: map (fun c => "- " ++ c) cs
  | None => []
  end.

Definition examples_block (examples : option (list string)) : list string :=
  match present_list examples with
  | Some es => "Examples:" :: mapi_from 0 example_section es
  | None => []
  end.

Definition sections (base_prompt : string) (role : option string)
  (examples constraints : option (list string))
  (audience tone output_format : option string) : list string :=
  List.concat
    [ clause role (fun r => "You are " ++ r ++ ".");
      [base_prompt];
      clause audience
        (fun a => "Your response should be suitable for " ++ a ++ ".");
      clause tone (fun t => "Use a " ++ t ++ " tone in your response.");
      clause output_format (fun o => "Format your response as " ++ o ++ ".");
      requirements_block constraints;
      examples_block examples ].

End ComposerSpec.

(** ** Retrieval *)

Record KnowledgeItem : Set := mkItem {
  title : string;
  content : string
}.

(** [set(query.lower().split())]: the terms without repetition. The only
    use of the set is a test for the existence of a term, which does not
    depend on the order of iteration. *)
Definition query_terms_of (query : string) : list string :=
  nodup string_dec (split (lower query)).

(** [any(term in content or term in title for term in query_terms)]. *)
Definition item_matches (query_terms : list string) (item : KnowledgeItem)
  : bool :=
  let content_l := lower (content item) in
  let title_l := lower (title item) in
  existsb (fun term => contains term content_l || contains term title_l)
    query_terms.

Definition retrieve_relevant_info (query : string)
  (knowledge_base : list KnowledgeItem) : list string :=
  let query_terms := query_terms_of query in
  let relevant_info :=
    fold_left
      (fun relevant_info item =>
         if item_matches query_terms item
         then relevant_info +++ [content item]
         else relevant_info)
      knowledge_base [] in
  firstn 3 relevant_info.

Definition create_rag_context (base_prompt query : string)
  (knowledge_base : list KnowledgeItem) : string :=
  let relevant_info := retrieve_relevant_info query knowledge_base in
  if negb (truthy_list relevant_info) then base_prompt
  else
    let context_block :=
      "Relevant information:" ++ NLNL ++ join NLNL relevant_info in
    base_prompt ++ NLNL ++ context_block.

(** The retrieval as the specification words it. *)
Module RetrievalSpec.

(** [needle] occurs in [hay]. *)
Definition Substring (needle hay : string) : Prop :=
  exists pre post, hay = pre ++ needle ++ post.

(** Some lowercased, whitespace-separated term of the query occurs in the
    lowercased title or in the lowercased content of the item. *)
Definition ItemMatches (query : string) (item : KnowledgeItem) : Prop :=
  exists term,
    In term (split (lower query))
    /\ (Substring term (lower (title item))
        \/ Substring term (lower (content item))).

Definition NoMatch (query : string) (kb : list KnowledgeItem) : Prop :=
  forall item, In item kb -> ~ ItemMatches query item.

(** [Matching query kb hits]: [hits] are the items of [kb] that match, all
    of them and in the order of [kb]. *)
Inductive Matching (query : string)
  : list KnowledgeItem -> list KnowledgeItem -> Prop :=
| Matching_nil : Matching query [] []
| Matching_hit item kb hits :
    ItemMatches query item -> Matching query kb hits ->
    Matching query (item :: kb) (item :: hits)
| Matching_miss item kb hits :
    ~ ItemMatches query item -> Matching query kb hits ->
    Matching query (item :: kb) hits.

End RetrievalSpec.

(** The score extraction as the specification words it. *)
Module EvaluatorSpec.

Fixpoint all_digits (s : string) : bool :=
  match s with
  | EmptyString => true
  | String c s' => is_digit c && all_digits s'
  end.

(** [text] has a substring of the form digits '.' digits. *)
Definition HasDecimal (text : string) : Prop :=
  exists pre d1 d2 post,
    text = pre ++ d1 ++ "." ++ d2 ++ post
    /\ d1 <> EmptyString /\ d2 <> EmptyString
    /\ all_digits d1 = true /\ all_digits d2 = true.

(** The same, decided on windows of three characters: a digit, a dot, a
    digit. *)
Fixpoint has_decimalb (text : string) : bool :=
  match text with
  | String a ((String b (String c _)) as rest) =>
      (is_digit a && Ascii.eqb b "." && is_digit c) || has_decimalb rest
  | _ => false
  end.

(** The text that the generation capability returns to the evaluation
    request made when [log] holds the earlier calls. *)
Definition evaluation_text (client : nat -> string -> string * Q)
  (prompt response : string) (criteria : list string) (log : list string)
  : string :=
  fst (client (List.length log) (eval_prompt_of prompt response criteria)).

End EvaluatorSpec.

(** The layer experiment as the specification words it. *)
Module RunnerSpec.

Section Expected.

Variable tokenizer : option (string -> list nat).
Variable client : nat -> string -> string * Q.

(** The metrics of the call number [n], made with [prompt]. *)
Definition measure (n : nat) (prompt : string) : result Metrics :=
  let (response, lat) := client n prompt in
  calculate_metrics tokenizer prompt response lat.

(** [Variant results n label prompt]: [results] holds, under [label], the
    metrics measured for [prompt] at the call number [n]. *)
Definition Variant (results : dict Metrics) (position n : nat)
  (label prompt : string) : Prop :=
  exists m, measure n prompt = Ok m
            /\ nth_error results position = Some (label, m).

End Expected.

(** The keys of the mapping that a run returned. *)
Definition keys_of_run {V} (run : result (dict V) * list string)
  : option (list string) :=
  match fst run with
  | Ok d => Some (keys d)
  | Raise _ => None
  end.

End RunnerSpec.

(** ** The expansion experiment

    The loop of the notebook over its [expanded_prompts]: each variant is
    sent once, its response is stored in [responses] and its metrics in
    [results], both under the name of the variant. *)

Section Experiment.

Variable tokenizer : option (string -> list nat).
Variable client : nat -> string -> string * Q.

(** The loop [for name, prompt in expanded_prompts.items()]. *)
Fixpoint expanded_prompts_loop (items : list (string * string))
  (results : dict Metrics) (responses : dict string)
  : Gen (dict Metrics * dict string) :=
  match items with
  | [] => ret (results, responses)
  | (name, prompt) :: rest =>
      '(response, lat) <- generate_response client prompt ;;
      let responses := dict_set responses name response in
      m <- lift (calculate_metrics tokenizer prompt response lat) ;;
      expanded_prompts_loop rest (dict_set results name m) responses
  end.

Definition expanded_prompts_experiment (expanded_prompts : dict string)
  : Gen (dict Metrics * dict string) :=
  let results := [] in
  let responses := [] in
  expanded_prompts_loop expanded_prompts results responses.

End Experiment.

(** ** Consistency sampling (01_min_prompt.py)

    The class [SimpleLLM] of the object [llm] is not part of the sources;
    its two methods are parameters: [llm_generate n prompt] is the text
    answered to the call number [n], [llm_count_tokens] the token count of
    a text. *)

Module MinPrompt.

Record ConsistencyReport : Set := mkReport {
  prompt : string;
  responses : list string;
  total_tokens : Z;
  consistency_score : Q
}.

Section Consistency.

Variable llm_generate : nat -> string -> string.
Variable llm_count_tokens : string -> Z.

(** [llm.generate(prompt)], recorded in the log of calls. *)
Definition generate (prompt : string) : Gen string :=
  fun log => (Ok (llm_generate (List.length log) prompt), log +++ [prompt]).

(** The loop [for _ in range(n_samples)], with [n] rounds left. *)
Fixpoint samples_loop (n : nat) (prompt : string) (responses : list string)
  (total_tokens : Z) : Gen (list string * Z) :=
  match n with
  | O => ret (responses, total_tokens)
  | S n' =>
      response <- generate prompt ;;
      let responses := responses +++ [response] in
      let total_tokens := (total_tokens + llm_count_tokens prompt)%Z in
      samples_loop n' prompt responses total_tokens
  end.

(** [range(n_samples)] is empty for a count that is zero or negative. *)
Definition measure_consistency (prompt : string) (n_samples : Z)
  : Gen ConsistencyReport :=
  let responses := [] in
  let total_tokens := 0%Z in
  '(responses, total_tokens) <-
    samples_loop (Z.to_nat n_samples) prompt responses total_tokens ;;
  let consistency_score := (1 # 2)%Q in
  ret {| prompt := prompt;
         responses := responses;
         total_tokens := total_tokens;
         consistency_score := consistency_score |}.

End Consistency.

End MinPrompt.

(** ** Further notions used in the statements *)

Module TextSpec.

(** Every character of the text is whitespace. *)
Fixpoint all_space (s : string) : bool :=
  match s with
  | EmptyString => true
  | String c s' => is_space c && all_space s'
  end.

(** No character of the text is a digit. *)
Fixpoint no_digit (s : string) : bool :=
  match s with
  | EmptyString => true
  | String c s' => negb (is_digit c) && no_digit s'
  end.

(** The answers to the calls number [first], [first + 1], ... ([n] of
    them), all made with [prompt]. *)
Fixpoint answers (generate : nat -> string -> string) (first n : nat)
  (prompt : string) : list string :=
  match n with
  | O => []
  | S n' => generate first prompt :: answers generate (S first) n' prompt
  end.

End TextSpec.

(** * Properties *)

(** ** Token counting *)

Section MeteringFacts.

Variable tokenizer : option (string -> list nat).

Lemma count_tokens_nonneg (text : string) :
  (0 <= num_val (count_tokens tokenizer text))%Q.
Proof.
  unfold count_tokens. destruct tokenizer as [encode|]; simpl.
  - change 0%Q with (inject_Z 0). rewrite <- Zle_Qle. lia.
  - apply Qmult_le_0_compat.
    + change 0%Q with (inject_Z 0). rewrite <- Zle_Qle. lia.
    + unfold float_1_3, Qle; simpl; lia.
Qed.

Lemma num_gt0_true_nonzero (x : number) :
  num_gt0 x = true -> Qeq_bool (num_val x) 0 = false.
Proof.
  unfold num_gt0. intros H.
  destruct (Qeq_bool (num_val x) 0) eqn:E; [|reflexivity].
  apply Qeq_bool_iff in E.
  assert (Qle_bool (num_val x) 0 = true) as L
    by (apply Qle_bool_iff; rewrite E; apply Qle_refl).
  rewrite L in H. discriminate.
Qed.

Lemma num_gt0_false_of_zero (x : number) :
  (num_val x == 0)%Q -> num_gt0 x = false.
Proof.
  intros H. unfold num_gt0.
  assert (Qle_bool (num_val x) 0 = true) as L
    by (apply Qle_bool_iff; rewrite H; apply Qle_refl).
  rewrite L. reflexivity.
Qed.

(** The guard [prompt_tokens > 0] keeps both divisions away from zero:
    [calculate_metrics] always returns. *)
Lemma calculate_metrics_total (prompt response : string) (lat : Q) :
  exists m, calculate_metrics tokenizer prompt response lat = Ok m.
Proof.
  unfold calculate_metrics.
  destruct (num_gt0 (count_tokens tokenizer prompt)) eqn:G.
  - unfold truediv. rewrite (num_gt0_true_nonzero _ G). simpl.
    eexists; reflexivity.
  - simpl. eexists; reflexivity.
Qed.

End MeteringFacts.

(** Without a tokenizer the count is the number of words times 1.3, a
    float that no rounding step follows. *)
Lemma count_tokens_fallback (text : string) :
  count_tokens None text
  = PyFloat (inject_Z (Z.of_nat (List.length (split text))) * float_1_3)%Q.
Proof. reflexivity. Qed.

Lemma count_tokens_fallback_is_float (text : string) :
  is_int (count_tokens None text) = false.
Proof. reflexivity. Qed.

(** C2 (evaluation at the failing input): without a tokenizer,
    [count_tokens] of the one-word text "hello" is the float 1.3; it is not
    an int, and its value is no integer, in particular not round(1.3) = 1. *)
Theorem count_tokens_fallback_not_integer :
  count_tokens None "hello" = PyFloat (13 # 10)%Q
  /\ is_int (count_tokens None "hello") = false
  /\ forall z : Z, ~ (num_val (count_tokens None "hello") == inject_Z z)%Q.
Proof.
  split; [reflexivity|]. split; [reflexivity|].
  intros z H.
  change (num_val (count_tokens None "hello")) with (13 # 10)%Q in H.
  unfold Qeq in H; simpl in H. lia.
Qed.

(** C7: when the prompt counts zero tokens, [calculate_metrics] returns
    metrics whose token_efficiency and latency_per_1k are both the integer
    0; and on no input at all does it raise ZeroDivisionError. *)
Theorem calculate_metrics_zero_prompt
  (tokenizer : option (string -> list nat))
  (prompt response : string) (lat : Q) :
  (num_val (count_tokens tokenizer prompt) == 0)%Q ->
  (exists m,
      calculate_metrics tokenizer prompt response lat = Ok m
      /\ token_efficiency m = PyInt 0
      /\ latency_per_1k m = PyInt 0)
  /\ (forall p r l,
        calculate_metrics tokenizer p r l <> Raise ZeroDivisionError).
Proof.
  intros Hz. split.
  - unfold calculate_metrics.
    rewrite (num_gt0_false_of_zero _ Hz). simpl.
    eexists. split; [reflexivity|]. split; reflexivity.
  - intros p r l H.
    destruct (calculate_metrics_total tokenizer p r l) as [m Hm].
    rewrite Hm in H. discriminate.
Qed.

Lemma calculate_metrics_zero_prompt_witness :
  (exists m,
      calculate_metrics None EmptyString "two words" (3 # 2)%Q = Ok m
      /\ token_efficiency m = PyInt 0
      /\ latency_per_1k m = PyInt 0)
  /\ (forall p r l, calculate_metrics None p r l <> Raise ZeroDivisionError).
Proof.
  apply (calculate_metrics_zero_prompt None EmptyString "two words" (3 # 2)%Q).
  reflexivity.
Defined.

(** ** Compression *)

(** C8: for a technique label other than summarize, keywords and bullet,
    [compress_context] returns the context unchanged and leaves the log of
    generation calls as it was: no call is made. *)
Theorem compress_context_passthrough
  (client : nat -> string -> string * Q)
  (context technique : string) (log : list string) :
  technique <> "summarize" ->
  technique <> "keywords" ->
  technique <> "bullet" ->
  compress_context client context technique log = (Ok context, log).
Proof.
  intros H1 H2 H3. unfold compress_context.
  apply String.eqb_neq in H1, H2, H3.
  rewrite H1, H2, H3. reflexivity.
Qed.

Lemma compress_context_passthrough_witness :
  compress_context (fun _ _ => ("never asked", 0%Q)) "Some long context."
    "unknown_technique" ["earlier prompt"]
  = (Ok "Some long context.", ["earlier prompt"]).
Proof.
  apply compress_context_passthrough; intros H; discriminate H.
Defined.

(** The three named techniques do call the generation capability, once. *)
Lemma compress_context_known_calls_once
  (client : nat -> string -> string * Q)
  (context technique : string) (log : list string) :
  technique = "summarize" \/ technique = "keywords" \/ technique = "bullet" ->
  exists prompt,
    compress_context client context technique log
    = (Ok (fst (client (List.length log) prompt)), log +++ [prompt]).
Proof.
  intros [-> | [-> | ->]]; unfold compress_context; simpl;
    unfold bind, generate_response;
    match goal with
    | |- context [client ?n ?p] => exists p; destruct (client n p)
    end; reflexivity.
Qed.

(** ** Composition *)

Section ComposerFacts.

Import ComposerSpec.

Lemma when_str_clause (arg : option string) (f : string -> string)
  (parts : list string) :
  when_str arg f parts = parts +++ clause arg f.
Proof.
  unfold when_str, clause, present_str, append_part.
  destruct arg as [[|c a]|]; simpl; try reflexivity;
    symmetry; apply app_nil_r.
Qed.

Lemma bullets_loop (cs acc : list string) :
  fold_left (fun parts constraint => append_part parts ("- " ++ constraint))
    cs acc
  = acc +++ map (fun c => "- " ++ c) cs.
Proof.
  revert acc. induction cs as [|c cs IH]; intros acc; simpl.
  - symmetry; apply app_nil_r.
  - rewrite IH. unfold append_part. rewrite <- app_assoc. reflexivity.
Qed.

Lemma examples_loop (es acc : list string) (i : nat) :
  fold_left
    (fun parts ie =>
       append_part parts
         ("Example " ++ str_of_nat (fst ie) ++ ":" ++ NL ++ snd ie))
    (enumerate (S i) es) acc
  = acc +++ mapi_from i example_section es.
Proof.
  revert acc i. induction es as [|e es IH]; intros acc i; simpl.
  - symmetry; apply app_nil_r.
  - rewrite IH. unfold append_part, example_section.
    rewrite <- app_assoc. simpl. rewrite Nat.add_1_r. reflexivity.
Qed.

Lemma requirements_loop (constraints : option (list string))
  (parts : list string) :
  match constraints with
  | Some cs =>
      if truthy_list cs then
        fold_left
          (fun parts constraint => append_part parts ("- " ++ constraint))
          cs (append_part parts "Requirements:")
      else parts
  | None => parts
  end = parts +++ requirements_block constraints.
Proof.
  unfold requirements_block, present_list.
  destruct constraints as [[|c cs]|]; cbn [truthy_list];
    try (symmetry; apply app_nil_r).
  rewrite bullets_loop. unfold append_part.
  rewrite <- app_assoc. reflexivity.
Qed.

Lemma examples_block_loop (examples : option (list string))
  (parts : list string) :
  match examples with
  | Some es =>
      if truthy_list es then
        fold_left
          (fun parts ie =>
             append_part parts
               ("Example " ++ str_of_nat (fst ie) ++ ":" ++ NL ++ snd ie))
          (enumerate 1 es) (append_part parts "Examples:")
      else parts
  | None => parts
  end = parts +++ examples_block examples.
Proof.
  unfold examples_block, present_list.
  destruct examples as [[|e es]|]; cbn [truthy_list];
    try (symmetry; apply app_nil_r).
  rewrite examples_loop. unfold append_part.
  rewrite <- app_assoc. reflexivity.
Qed.

Lemma context_parts_sections (base_prompt : string) (role : option string)
  (examples constraints : option (list string))
  (audience tone output_format : option string) :
  create_expanded_context base_prompt role examples constraints audience tone
    output_format
  = join NLNL
      (sections base_prompt role examples constraints audience tone
         output_format).
Proof.
  unfold create_expanded_context, sections.
  rewrite examples_block_loop, requirements_loop.
  rewrite !when_str_clause. unfold append_part.
  f_equal. cbn [List.concat]. rewrite app_nil_r.
  rewrite <- !app_assoc. reflexivity.
Qed.

End ComposerFacts.

(** C3: whatever the arguments, the output of [create_expanded_context] is
    the blank-line join of exactly the present sections in the canonical
    order: the clause "You are {role}.", the base prompt, the audience
    clause, the tone clause, the output-format clause, the block
    "Requirements:" with one "- " line per constraint in input order, and
    the block "Examples:" with one "Example i:" section per example, i
    counted from 1 in input order. A section that is absent gives neither
    text nor separator, so with no optional argument the output is the
    base prompt itself. (Present: given and not empty.) *)
Theorem create_expanded_context_canonical_order
  (base_prompt : string) (role : option string)
  (examples constraints : option (list string))
  (audience tone output_format : option string) :
  create_expanded_context base_prompt role examples constraints audience tone
    output_format
  = join NLNL
      (List.concat
         [ ComposerSpec.clause role (fun r => "You are " ++ r ++ ".");
           [base_prompt];
           ComposerSpec.clause audience
             (fun a => "Your response should be suitable for " ++ a ++ ".");
           ComposerSpec.clause tone
             (fun t => "Use a " ++ t ++ " tone in your response.");
           ComposerSpec.clause output_format
             (fun o => "Format your response as " ++ o ++ ".");
           ComposerSpec.requirements_block constraints;
           ComposerSpec.examples_block examples ])
  /\ create_expanded_context base_prompt None None None None None None
     = base_prompt.
Proof.
  split.
  - apply context_parts_sections.
  - reflexivity.
Qed.

(** All seven sections at once, on a concrete call. *)
Example create_expanded_context_all_sections :
  create_expanded_context "Explain tides." (Some "a teacher")
    (Some ["High tide."; "Low tide."]) (Some ["Be brief"; "Use SI units"])
    (Some "children") (Some "warm") (Some "a list")
  = "You are a teacher." ++ NLNL ++ "Explain tides." ++ NLNL
    ++ "Your response should be suitable for children." ++ NLNL
    ++ "Use a warm tone in your response." ++ NLNL
    ++ "Format your response as a list." ++ NLNL
    ++ "Requirements:" ++ NLNL ++ "- Be brief" ++ NLNL ++ "- Use SI units"
    ++ NLNL ++ "Examples:" ++ NLNL
    ++ "Example 1:" ++ NL ++ "High tide." ++ NLNL
    ++ "Example 2:" ++ NL ++ "Low tide.".
Proof. reflexivity. Qed.

(** C10: an empty list of constraints, of examples, or of both gives the
    same output as leaving the argument out; no "Requirements:" or
    "Examples:" header comes from an empty list. *)
Theorem create_expanded_context_empty_lists
  (base_prompt : string) (role audience tone output_format : option string)
  (examples constraints : option (list string)) :
  create_expanded_context base_prompt role examples (Some []) audience tone
    output_format
  = create_expanded_context base_prompt role examples None audience tone
      output_format
  /\ create_expanded_context base_prompt role (Some []) constraints audience
       tone output_format
     = create_expanded_context base_prompt role None constraints audience
         tone output_format
  /\ create_expanded_context base_prompt role (Some []) (Some []) audience
       tone output_format
     = create_expanded_context base_prompt role None None audience tone
         output_format
  /\ ComposerSpec.requirements_block (Some []) = []
  /\ ComposerSpec.examples_block (Some []) = [].
Proof. repeat split; reflexivity. Qed.

(** ** Retrieval *)

Section RetrievalFacts.

Import RetrievalSpec.

Lemma prefix_spec (needle hay : string) :
  String.prefix needle hay = true <-> exists post, hay = needle ++ post.
Proof.
  revert hay. induction needle as [|a needle IH]; intros hay; simpl.
  - split; [intros _; exists hay; reflexivity |].
    intros _. destruct hay; reflexivity.
  - destruct hay as [|b hay]; simpl.
    + split; [discriminate | intros [post H]; discriminate H].
    + destruct (ascii_dec a b) as [->|Hab].
      * rewrite IH. split; intros [post H]; exists post.
        -- now rewrite H.
        -- now inversion H.
      * split; [discriminate|]. intros [post H]. inversion H.
        subst. contradiction Hab; reflexivity.
Qed.

Lemma contains_unfold (needle hay : string) :
  contains needle hay
  = String.prefix needle hay
    || match hay with
       | EmptyString => false
       | String _ hay' => contains needle hay'
       end.
Proof. destruct hay; reflexivity. Qed.

Lemma contains_spec (needle hay : string) :
  contains needle hay = true <-> Substring needle hay.
Proof.
  split.
  - induction hay as [|c hay IH]; rewrite contains_unfold; intros H;
      apply orb_true_iff in H as [H|H].
    + apply prefix_spec in H as [post H].
      exists EmptyString, post. exact H.
    + discriminate H.
    + apply prefix_spec in H as [post H].
      exists EmptyString, post. exact H.
    + destruct (IH H) as (pre & post & E).
      exists (String c pre), post. simpl. now rewrite E.
  - intros (pre & post & E). subst hay.
    induction pre as [|c pre IH]; rewrite contains_unfold.
    + assert (String.prefix needle (needle ++ post) = true) as P
        by (apply prefix_spec; exists post; reflexivity).
      simpl. rewrite P. reflexivity.
    + change (String c pre ++ needle ++ post)
        with (String c (pre ++ needle ++ post)).
      cbv iota. rewrite IH. apply orb_true_r.
Qed.

Lemma item_matches_spec (query : string) (item : KnowledgeItem) :
  item_matches (query_terms_of query) item = true <-> ItemMatches query item.
Proof.
  unfold item_matches, ItemMatches, query_terms_of.
  rewrite existsb_exists. split.
  - intros (term & Hin & H). exists term. split.
    + now apply nodup_In in Hin.
    + apply orb_true_iff in H as [H|H]; apply contains_spec in H; tauto.
  - intros (term & Hin & H). exists term. split.
    + now apply nodup_In.
    + apply orb_true_iff.
      destruct H as [H|H]; apply contains_spec in H; tauto.
Qed.

(** The loop of [retrieve_relevant_info] keeps the content of the items
    that match, in the order of the knowledge base. *)
Lemma relevant_info_loop (terms : list string) (kb : list KnowledgeItem)
  (acc : list string) :
  fold_left
    (fun relevant_info item =>
       if item_matches terms item
       then relevant_info +++ [content item]
       else relevant_info)
    kb acc
  = acc +++ map content (filter (item_matches terms) kb).
Proof.
  revert acc. induction kb as [|item kb IH]; intros acc; simpl.
  - symmetry; apply app_nil_r.
  - rewrite IH. destruct (item_matches terms item); simpl.
    + rewrite <- app_assoc. reflexivity.
    + reflexivity.
Qed.

Lemma retrieve_relevant_info_filter (query : string)
  (kb : list KnowledgeItem) :
  retrieve_relevant_info query kb
  = map content (firstn 3 (filter (item_matches (query_terms_of query)) kb)).
Proof.
  unfold retrieve_relevant_info. rewrite relevant_info_loop.
  cbn [List.app]. apply firstn_map.
Qed.

Lemma Matching_filter (query : string) (kb : list KnowledgeItem) :
  Matching query kb (filter (item_matches (query_terms_of query)) kb).
Proof.
  induction kb as [|item kb IH]; simpl.
  - constructor.
  - destruct (item_matches (query_terms_of query) item) eqn:E.
    + apply Matching_hit; [now apply item_matches_spec | exact IH].
    + apply Matching_miss; [|exact IH].
      intros H. apply item_matches_spec in H. congruence.
Qed.

(** The matching items are determined by the query and the knowledge
    base. *)
Lemma Matching_unique (query : string) (kb hits1 hits2 : list KnowledgeItem) :
  Matching query kb hits1 -> Matching query kb hits2 -> hits1 = hits2.
Proof.
  intros H1. revert hits2.
  induction H1 as [|item kb hits Hm _ IH|item kb hits Hm _ IH];
    intros hits2 H2; inversion H2; subst;
    try reflexivity; try contradiction.
  - f_equal. now apply IH.
  - now apply IH.
Qed.

Lemma NoMatch_filter (query : string) (kb : list KnowledgeItem) :
  NoMatch query kb
  <-> filter (item_matches (query_terms_of query)) kb = [].
Proof.
  unfold NoMatch. split.
  - intros H. induction kb as [|item kb IH]; simpl; [reflexivity|].
    destruct (item_matches (query_terms_of query) item) eqn:E.
    + exfalso. apply (H item); [now left | now apply item_matches_spec].
    + apply IH. intros i Hi. apply H. now right.
  - intros H item Hin Hm. apply item_matches_spec in Hm.
    assert (In item (filter (item_matches (query_terms_of query)) kb)) as F
      by (apply filter_In; split; assumption).
    rewrite H in F. exact F.
Qed.

(** Lowercasing leaves the whitespace where it is, so the terms of the
    lowercased query are the lowercased words of the query. *)
Lemma is_space_lower_char (c : ascii) : is_space (lower_char c) = is_space c.
Proof. destruct c as [[] [] [] [] [] [] [] []]; reflexivity. Qed.

Lemma lower_app (s t : string) : lower (s ++ t) = lower s ++ lower t.
Proof. induction s as [|c s IH]; simpl; [reflexivity | now rewrite IH]. Qed.

Lemma split_from_lower (s cur : string) :
  split_from (lower cur) (lower s) = map lower (split_from cur s).
Proof.
  revert cur. induction s as [|c s IH]; intros cur; simpl.
  - destruct cur; reflexivity.
  - rewrite is_space_lower_char. destruct (is_space c).
    + pose proof (IH EmptyString) as IH0. cbn [lower] in IH0.
      destruct cur; simpl; now rewrite IH0.
    + rewrite <- IH, lower_app. reflexivity.
Qed.

Lemma split_lower (query : string) :
  split (lower query) = map lower (split query).
Proof. exact (split_from_lower query EmptyString). Qed.

Lemma ItemMatches_words (query : string) (item : KnowledgeItem) :
  ItemMatches query item
  <-> exists word,
       In word (split query)
       /\ (Substring (lower word) (lower (title item))
           \/ Substring (lower word) (lower (content item))).
Proof.
  unfold ItemMatches. rewrite split_lower. split.
  - intros (term & Hin & H). apply in_map_iff in Hin as (word & <- & Hw).
    now exists word.
  - intros (word & Hw & H). exists (lower word). split; [|exact H].
    now apply in_map.
Qed.

(** At most three contents are retrieved. *)
Lemma retrieve_relevant_info_limit (query : string)
  (kb : list KnowledgeItem) :
  List.length (retrieve_relevant_info query kb) <= 3.
Proof.
  rewrite retrieve_relevant_info_filter, length_map. apply firstn_le_length.
Qed.

End RetrievalFacts.

(** C4: if no item of the knowledge base has a lowercased title or content
    in which some lowercased whitespace-separated query term occurs,
    [create_rag_context] returns the base prompt unchanged; otherwise it
    returns the base prompt, a blank line, "Relevant information:", a blank
    line, and the contents of the first three (or fewer) matching items in
    the order of the knowledge base, separated by blank lines. *)
Theorem create_rag_context_spec
  (base_prompt query : string) (knowledge_base : list KnowledgeItem) :
  (RetrievalSpec.NoMatch query knowledge_base ->
   create_rag_context base_prompt query knowledge_base = base_prompt)
  /\ (~ RetrievalSpec.NoMatch query knowledge_base ->
      exists hits,
        RetrievalSpec.Matching query knowledge_base hits
        /\ create_rag_context base_prompt query knowledge_base
           = base_prompt ++ NLNL ++ "Relevant information:" ++ NLNL
             ++ join NLNL (map content (firstn 3 hits))).
Proof.
  unfold create_rag_context.
  rewrite retrieve_relevant_info_filter.
  rewrite NoMatch_filter.
  pose proof (Matching_filter query knowledge_base) as HM.
  destruct (filter (item_matches (query_terms_of query)) knowledge_base)
    as [|hit hits] eqn:E.
  - split; [reflexivity | intros H; contradiction H; reflexivity].
  - split; [discriminate|]. intros _.
    exists (hit :: hits). split; [exact HM | reflexivity].
Qed.

Lemma create_rag_context_spec_witness :
  create_rag_context "Explain the weather."  "Monsoon season"
    [mkItem "Tides" "The moon pulls the sea."; mkItem "Wind" "Air moves."]
  = "Explain the weather."
  /\ exists hits,
      RetrievalSpec.Matching "Climate TEMP"
        [mkItem "Weather" "About climates."; mkItem "Tides" "Sea level.";
         mkItem "Temperature" "Heat."; mkItem "Ice" "CLIMATE records.";
         mkItem "Air" "Temperate zones."] hits
      /\ create_rag_context "Explain the weather." "Climate TEMP"
           [mkItem "Weather" "About climates."; mkItem "Tides" "Sea level.";
            mkItem "Temperature" "Heat."; mkItem "Ice" "CLIMATE records.";
            mkItem "Air" "Temperate zones."]
         = "Explain the weather." ++ NLNL ++ "Relevant information:" ++ NLNL
           ++ join NLNL (map content (firstn 3 hits)).
Proof.
  split.
  - apply (proj1 (create_rag_context_spec _ _ _)).
    apply NoMatch_filter. reflexivity.
  - apply (proj2 (create_rag_context_spec _ _ _)).
    intros H. apply NoMatch_filter in H. discriminate H.
Defined.

(** With more than three matching items, the first three are kept. *)
Example create_rag_context_truncates :
  create_rag_context "Explain the weather." "Climate TEMP"
    [mkItem "Weather" "About climates."; mkItem "Tides" "Sea level.";
     mkItem "Temperature" "Heat."; mkItem "Ice" "CLIMATE records.";
     mkItem "Air" "Temperate zones."]
  = "Explain the weather." ++ NLNL ++ "Relevant information:" ++ NLNL
    ++ "About climates." ++ NLNL ++ "Heat." ++ NLNL ++ "CLIMATE records.".
Proof. reflexivity. Qed.

(** ** Score extraction *)

Section ScanFacts.

Import Re EvaluatorSpec.

Lemma append_nil_r (s : string) : s ++ EmptyString = s.
Proof. induction s as [|c s IH]; simpl; [reflexivity | now rewrite IH]. Qed.

Lemma append_assoc (s1 s2 s3 : string) : (s1 ++ s2) ++ s3 = s1 ++ s2 ++ s3.
Proof. induction s1 as [|c s1 IH]; simpl; [reflexivity | now rewrite IH]. Qed.

Lemma span_digits_spec (s d r : string) :
  span_digits s = (d, r) ->
  s = d ++ r /\ all_digits d = true /\ run_ends r.
Proof.
  revert d r. induction s as [|c s IH]; simpl; intros d r H.
  - inversion H; subst. repeat split.
  - destruct (is_digit c) eqn:Hc.
    + destruct (span_digits s) as [d' r'] eqn:E.
      inversion H; subst.
      destruct (IH d' r eq_refl) as (-> & Hd & Hr).
      simpl. rewrite Hc, Hd. repeat split. exact Hr.
    + inversion H; subst. simpl. repeat split. exact Hc.
Qed.

Lemma span_digits_app (d r : string) :
  all_digits d = true -> run_ends r -> span_digits (d ++ r) = (d, r).
Proof.
  intros Hd Hr. induction d as [|c d IH]; simpl.
  - destruct r as [|c r]; simpl in *; [reflexivity|]. now rewrite Hr.
  - simpl in Hd. apply andb_true_iff in Hd as [Hc Hd].
    rewrite Hc, (IH Hd). reflexivity.
Qed.

(** A successful attempt matched a literal: digits, a dot, digits. *)
Lemma match_decimal_some (s m rest : string) :
  match_decimal s = Some (m, rest) ->
  exists d1 d2,
    m = d1 ++ "." ++ d2 /\ s = m ++ rest
    /\ d1 <> EmptyString /\ d2 <> EmptyString
    /\ all_digits d1 = true /\ all_digits d2 = true.
Proof.
  unfold match_decimal. intros H.
  destruct (span_digits s) as [d1 r] eqn:E1.
  apply span_digits_spec in E1 as (-> & Hd1 & _).
  destruct d1 as [|c1 d1]; [discriminate|].
  destruct r as [|c r1]; [discriminate|].
  destruct (Ascii.eqb c ".") eqn:Hc; [|discriminate].
  apply Ascii.eqb_eq in Hc; subst c.
  destruct (span_digits r1) as [d2 r2] eqn:E2.
  apply span_digits_spec in E2 as (-> & Hd2 & _).
  destruct d2 as [|c2 d2]; [discriminate|].
  inversion H; subst.
  exists (String c1 d1), (String c2 d2).
  repeat split; try assumption; try discriminate.
  simpl. rewrite append_assoc. reflexivity.
Qed.

(** A digit, a dot and a digit at the start are enough for a match. *)
Lemma match_decimal_window (a c : ascii) (t : string) :
  is_digit a = true -> is_digit c = true ->
  match_decimal (String a (String "." (String c t))) <> None.
Proof.
  intros Ha Hc. unfold match_decimal.
  assert (span_digits (String a (String "." (String c t)))
          = (String a EmptyString, String "." (String c t))) as E.
  { cbn [span_digits]. rewrite Ha.
    change (is_digit ".") with false. reflexivity. }
  rewrite E. change (Ascii.eqb "." ".") with true. cbv iota.
  cbn [span_digits]. rewrite Hc.
  destruct (span_digits t). discriminate.
Qed.

Lemma findall_hit (c : ascii) (s' m rest : string) :
  match_decimal (String c s') = Some (m, rest) ->
  findall (String c s') = m :: findall rest.
Proof.
  intros H. funelim (findall (String c s')).
  - discriminate.
  - inversion eqargs; subst. rewrite e in H1. now inversion H1.
  - inversion eqargs; subst. rewrite e in H1. discriminate.
Qed.

Lemma findall_miss (c : ascii) (s' : string) :
  match_decimal (String c s') = None ->
  findall (String c s') = findall s'.
Proof.
  intros H. funelim (findall (String c s')).
  - discriminate.
  - inversion eqargs; subst. rewrite e in H1. discriminate.
  - inversion eqargs; subst. reflexivity.
Qed.

(** Every string that [findall] returns is a literal digits '.' digits. *)
Lemma findall_literals (s m : string) :
  In m (findall s) ->
  exists d1 d2,
    m = d1 ++ "." ++ d2
    /\ d1 <> EmptyString /\ d2 <> EmptyString
    /\ all_digits d1 = true /\ all_digits d2 = true.
Proof.
  revert m. funelim (findall s); intros m0 Hin.
  - contradiction.
  - destruct Hin as [<-|Hin].
    + destruct (match_decimal_some _ _ _ e) as (d1 & d2 & ? & _ & ?).
      exists d1, d2. tauto.
    + now apply H.
  - now apply H.
Qed.

Lemma has_decimalb_unfold (a b c : ascii) (t : string) :
  has_decimalb (String a (String b (String c t)))
  = (is_digit a && Ascii.eqb b "." && is_digit c)
    || has_decimalb (String b (String c t)).
Proof. reflexivity. Qed.

Lemma has_decimalb_cons (a : ascii) (rest : string) :
  has_decimalb rest = true -> has_decimalb (String a rest) = true.
Proof.
  destruct rest as [|b [|c t]]; try discriminate.
  intros H. cbn [has_decimalb]. cbn [has_decimalb] in H.
  rewrite H. apply orb_true_r.
Qed.

Lemma has_decimalb_app (pre s : string) :
  has_decimalb s = true -> has_decimalb (pre ++ s) = true.
Proof.
  intros H. induction pre as [|a pre IH]; simpl; [exact H|].
  now apply has_decimalb_cons.
Qed.

Lemma all_digits_last (d : string) :
  d <> EmptyString -> all_digits d = true ->
  exists d' x, d = d' ++ String x EmptyString /\ is_digit x = true.
Proof.
  induction d as [|c d IH]; intros Hne Hd; [contradiction Hne; reflexivity|].
  simpl in Hd. apply andb_true_iff in Hd as [Hc Hd].
  destruct d as [|c' d].
  - exists EmptyString, c. split; [reflexivity | exact Hc].
  - destruct (IH ltac:(discriminate) Hd) as (d' & x & E & Hx).
    exists (String c d'), x. split; [simpl; now rewrite E | exact Hx].
Qed.

(** The window test decides the presence of a literal. *)
Lemma has_decimalb_spec (text : string) :
  has_decimalb text = true <-> HasDecimal text.
Proof.
  split.
  - induction text as [|a text IH]; [discriminate|].
    destruct text as [|b [|c t]]; try discriminate.
    cbn [has_decimalb]. intros H. apply orb_true_iff in H as [H|H].
    + apply andb_true_iff in H as [H Hc].
      apply andb_true_iff in H as [Ha Hb].
      apply Ascii.eqb_eq in Hb; subst b.
      exists EmptyString, (String a EmptyString), (String c EmptyString), t.
      simpl. rewrite Ha, Hc. repeat split; discriminate.
    + destruct (IH H) as (pre & d1 & d2 & post & E & ?).
      exists (String a pre), d1, d2, post. split; [|assumption].
      simpl. now rewrite E.
  - intros (pre & d1 & d2 & post & -> & Hn1 & Hn2 & Hd1 & Hd2).
    destruct (all_digits_last d1 Hn1 Hd1) as (d1' & x & -> & Hx).
    destruct d2 as [|y d2]; [contradiction Hn2; reflexivity|].
    simpl in Hd2. apply andb_true_iff in Hd2 as [Hy _].
    apply has_decimalb_app. rewrite append_assoc.
    apply has_decimalb_app. simpl. rewrite Hx, Hy. reflexivity.
Qed.

(** [findall] returns no match exactly when the text has no literal. *)
Lemma findall_nil_iff (s : string) :
  findall s = [] <-> has_decimalb s = false.
Proof.
  funelim (findall s).
  - split; reflexivity.
  - split; [discriminate|]. intros Hf. exfalso.
    destruct (match_decimal_some _ _ _ e)
      as (d1 & d2 & -> & E & Hn1 & Hn2 & Hd1 & Hd2).
    assert (has_decimalb (String c s') = true) as Ht.
    { apply has_decimalb_spec.
      exists EmptyString, d1, d2, rest. simpl.
      rewrite E, !append_assoc. simpl. tauto. }
    congruence.
  - rewrite H. split.
    + intros Hs. destruct s' as [|b [|c2 t]]; try reflexivity.
      rewrite has_decimalb_unfold, Hs, orb_false_r.
      destruct (is_digit c) eqn:Ha; [|reflexivity].
      destruct (Ascii.eqb b ".") eqn:Hb; [|reflexivity].
      destruct (is_digit c2) eqn:Hc; [|reflexivity].
      apply Ascii.eqb_eq in Hb; subst b.
      exfalso. exact (match_decimal_window c c2 t Ha Hc e).
    + intros Hs. destruct (has_decimalb s') eqn:E; [|reflexivity].
      rewrite (has_decimalb_cons c s' E) in Hs. discriminate.
Qed.

Lemma findall_nil_no_decimal (s : string) :
  findall s = [] <-> ~ HasDecimal s.
Proof.
  rewrite findall_nil_iff, <- has_decimalb_spec.
  destruct (has_decimalb s); split; intros H;
    try reflexivity; try discriminate; try congruence.
Qed.

End ScanFacts.

Section FloatFacts.

Import Re EvaluatorSpec.

Lemma is_digit_range (c : ascii) :
  is_digit c = true -> (0 <= Z.of_nat (nat_of_ascii c) - 48 <= 9)%Z.
Proof.
  unfold is_digit. intros H. apply andb_true_iff in H as [H1 H2].
  apply Nat.leb_le in H1, H2. lia.
Qed.

Lemma digits_val_from_nonneg (s : string) (acc : Z) :
  (0 <= acc)%Z -> all_digits s = true -> (0 <= digits_val_from acc s)%Z.
Proof.
  revert acc. induction s as [|c s IH]; simpl; intros acc Ha Hd.
  - exact Ha.
  - apply andb_true_iff in Hd as [Hc Hd].
    apply IH; [|exact Hd]. pose proof (is_digit_range c Hc). lia.
Qed.

(** *** Rounding keeps the sign

    The rounding of [SpecFloat] shifts and increments a mantissa; from a
    mantissa that is not negative it never makes a negative number, nor a
    NaN. *)

Lemma shr_1_nonneg (mrs : shr_record) :
  (0 <= shr_m mrs)%Z -> (0 <= shr_m (shr_1 mrs))%Z.
Proof.
  destruct mrs as [m r s]. cbn [shr_m]. intros H.
  destruct m as [|p|p]; [reflexivity | | lia].
  destruct p; cbn; lia.
Qed.

Lemma iter_shr_1_nonneg (p : positive) :
  forall mrs, (0 <= shr_m mrs)%Z -> (0 <= shr_m (iter_pos shr_1 p mrs))%Z.
Proof.
  induction p as [p IH|p IH|]; intros mrs H; cbn [iter_pos].
  - apply IH, IH. now apply shr_1_nonneg.
  - now apply IH, IH.
  - now apply shr_1_nonneg.
Qed.

Lemma shr_fexp_nonneg (m e : Z) (l : location) :
  (0 <= m)%Z -> (0 <= shr_m (fst (shr_fexp prec emax m e l)))%Z.
Proof.
  intros H. unfold shr_fexp, shr.
  assert (0 <= shr_m (shr_record_of_loc m l))%Z as H0
    by (destruct l as [|[]]; exact H).
  destruct (fexp prec emax (Zdigits2 m + e) - e)%Z; cbn [fst];
    try exact H0.
  now apply iter_shr_1_nonneg.
Qed.

Lemma round_nearest_even_nonneg (m : Z) (l : location) :
  (0 <= m)%Z -> (0 <= round_nearest_even m l)%Z.
Proof.
  intros H. destruct l as [|[]]; cbn [round_nearest_even]; try lia.
  destruct (Z.even m); lia.
Qed.

Lemma binary_round_aux_nonneg (m e : Z) (l : location) :
  (0 <= m)%Z ->
  float_le float_0 (binary_round_aux prec emax false m e l) = true.
Proof.
  intros H. unfold binary_round_aux.
  pose proof (shr_fexp_nonneg m e l H) as H1.
  destruct (shr_fexp prec emax m e l) as [mrs' e']. cbn [fst] in H1.
  pose proof (shr_fexp_nonneg _ e' loc_Exact
                (round_nearest_even_nonneg _ (loc_of_shr_record mrs') H1))
    as H2.
  destruct (shr_fexp prec emax _ e' loc_Exact) as [mrs'' e''].
  cbn [fst] in H2.
  destruct (shr_m mrs'') as [|q|q]; [reflexivity | | lia].
  destruct (e'' <=? emax - prec)%Z; reflexivity.
Qed.

Lemma nearest_ratio_nonneg (n d : positive) :
  float_le float_0 (nearest_ratio n d) = true.
Proof.
  unfold nearest_ratio, SFdiv, SFdiv_core_binary.
  set (s := (0 - 0 - _)%Z).
  set (m' := match s with
             | Zpos _ => Z.shiftl (Zpos n) s
             | Z0 => Zpos n
             | Zneg _ => 0%Z
             end).
  assert (0 <= m')%Z as Hm.
  { unfold m'. destruct s; try lia. apply Z.shiftl_nonneg. lia. }
  pose proof (Z.div_pos m' (Zpos d) Hm ltac:(lia)) as Hq.
  unfold Z.div in Hq.
  destruct (Z.div_eucl m' (Zpos d)) as [q r].
  now apply binary_round_aux_nonneg.
Qed.

(** The number a literal denotes is a float that is not negative (zero, a
    positive finite number, or infinity for a literal too large). *)
Lemma decimal_float_nonneg (d1 d2 : string) :
  float_le float_0 (decimal_float d1 d2) = true.
Proof.
  unfold decimal_float.
  destruct (digits_val d1 * _ + digits_val d2)%Z;
    try reflexivity. apply nearest_ratio_nonneg.
Qed.

(** [float] never fails on a literal digits '.' digits, and gives the
    number that the literal denotes. *)
Lemma py_float_literal (d1 d2 : string) :
  d1 <> EmptyString -> d2 <> EmptyString ->
  all_digits d1 = true -> all_digits d2 = true ->
  py_float (d1 ++ "." ++ d2) = Ok (decimal_float d1 d2).
Proof.
  intros Hn1 Hn2 Hd1 Hd2. unfold py_float.
  rewrite (span_digits_app d1 ("." ++ d2) Hd1) by reflexivity.
  destruct d1 as [|c1 d1]; [contradiction Hn1; reflexivity|].
  cbn [append]. change (Ascii.eqb "." ".") with true. cbv iota.
  pose proof (span_digits_app d2 EmptyString Hd2 I) as E.
  rewrite append_nil_r in E. rewrite E.
  destruct d2 as [|c2 d2]; [contradiction Hn2; reflexivity|].
  reflexivity.
Qed.

Lemma last_item_snoc {A} (front : list A) (x : A) :
  last_item (front +++ [x]) = Ok x.
Proof.
  induction front as [|a front IH]; [reflexivity|].
  cbn [List.app last_item]. rewrite IH.
  destruct (front +++ [x]) eqn:E; [|reflexivity].
  destruct front; discriminate E.
Qed.

Lemma truthy_list_nonempty {A} (l : list A) :
  truthy_list l = true <-> l <> [].
Proof. destruct l; simpl; split; congruence. Qed.

Variable client : nat -> string -> string * Q.

(** One run of [evaluate_response_quality] in a session that has imported
    [re]: a single call, then the extraction from its text. *)
Lemma evaluate_response_quality_run (prompt response : string)
  (criteria log : list string) :
  evaluate_response_quality Imported client prompt response criteria log
  = (let text := evaluation_text client prompt response criteria log in
     if truthy_list (findall text)
     then rbind (last_item (findall text)) py_float
     else Ok float_0_5,
     log +++ [eval_prompt_of prompt response criteria]).
Proof.
  unfold evaluate_response_quality, evaluation_text, bind, generate_response.
  destruct (client _ _) as [text lat]. cbn [fst lookup_re_findall rbind lift].
  destruct (truthy_list (findall text)); reflexivity.
Qed.

(** One run of [evaluate_response_quality] while [re] is unbound: a single
    call, then [NameError]. *)
Lemma evaluate_response_quality_unbound (prompt response : string)
  (criteria log : list string) :
  evaluate_response_quality Unbound client prompt response criteria log
  = (Raise NameError, log +++ [eval_prompt_of prompt response criteria]).
Proof.
  unfold evaluate_response_quality, bind, generate_response.
  destruct (client _ _) as [text lat]. reflexivity.
Qed.

(** Whatever the binding of [re], exactly one call is made. *)
Lemma evaluate_response_quality_log (re : binding)
  (prompt response : string) (criteria log : list string) :
  snd (evaluate_response_quality re client prompt response criteria log)
  = log +++ [eval_prompt_of prompt response criteria].
Proof.
  destruct re.
  - now rewrite evaluate_response_quality_unbound.
  - now rewrite evaluate_response_quality_run.
Qed.

(** With [re] imported and at least one match, the score is the number
    that the last match denotes. *)
Lemma evaluate_with_matches (prompt response : string)
  (criteria log : list string) :
  let text := evaluation_text client prompt response criteria log in
  findall text <> [] ->
  exists front d1 d2,
    findall text = front +++ [d1 ++ "." ++ d2]
    /\ d1 <> EmptyString /\ d2 <> EmptyString
    /\ all_digits d1 = true /\ all_digits d2 = true
    /\ fst (evaluate_response_quality Imported client prompt response
              criteria log)
       = Ok (decimal_float d1 d2).
Proof.
  intros text Hne.
  destruct (exists_last Hne) as (front & m & E).
  assert (In m (findall text)) as Hin
    by (rewrite E; apply in_or_app; right; now left).
  destruct (findall_literals _ _ Hin) as (d1 & d2 & -> & Hn1 & Hn2 & H1 & H2).
  exists front, d1, d2. repeat split; try assumption.
  rewrite evaluate_response_quality_run. cbn [fst]. fold text.
  apply truthy_list_nonempty in Hne. rewrite Hne, E, last_item_snoc.
  cbn [rbind]. now apply py_float_literal.
Qed.

(** With [re] imported and no match, the score is 0.5. *)
Lemma evaluate_without_match (prompt response : string)
  (criteria log : list string) :
  findall (evaluation_text client prompt response criteria log) = [] ->
  evaluate_response_quality Imported client prompt response criteria log
  = (Ok float_0_5, log +++ [eval_prompt_of prompt response criteria]).
Proof.
  intros E. rewrite evaluate_response_quality_run. cbv zeta.
  rewrite E. reflexivity.
Qed.

End FloatFacts.

(** The pattern has a match exactly when the text has a literal. *)
Lemma findall_matches_iff_decimal (s : string) :
  EvaluatorSpec.HasDecimal s <-> Re.findall s <> [].
Proof.
  rewrite <- has_decimalb_spec.
  pose proof (findall_nil_iff s) as N.
  destruct (EvaluatorSpec.has_decimalb s); split; intros H.
  - intros E. apply N in E. discriminate E.
  - reflexivity.
  - discriminate H.
  - contradiction H. now apply N.
Qed.

(** What the extraction does once [re] is imported: with one or more
    matches the score is the number the last match denotes, with none it
    is 0.5, and neither the indexing nor the conversion raises. *)
Lemma evaluate_response_quality_imported
  (client : nat -> string -> string * Q)
  (prompt response : string) (criteria log : list string) :
  let text :=
    EvaluatorSpec.evaluation_text client prompt response criteria log in
  let score :=
    fst (evaluate_response_quality Imported client prompt response criteria
           log) in
  (EvaluatorSpec.HasDecimal text <-> Re.findall text <> [])
  /\ (Re.findall text <> [] ->
      exists front d1 d2,
        Re.findall text = front +++ [d1 ++ "." ++ d2]
        /\ d1 <> EmptyString /\ d2 <> EmptyString
        /\ EvaluatorSpec.all_digits d1 = true
        /\ EvaluatorSpec.all_digits d2 = true
        /\ score = Ok (decimal_float d1 d2))
  /\ (Re.findall text = [] -> score = Ok float_0_5)
  /\ exists v, score = Ok v.
Proof.
  intros text score.
  assert (Re.findall text = [] -> score = Ok float_0_5) as Hnone.
  { intros E. unfold score.
    now rewrite (evaluate_without_match client _ _ _ _ E). }
  split; [|split; [|split]].
  - apply findall_matches_iff_decimal.
  - apply evaluate_with_matches.
  - exact Hnone.
  - destruct (Re.findall text) as [|m l] eqn:E.
    + eexists. now apply Hnone.
    + destruct (evaluate_with_matches client prompt response criteria log)
        as (front & d1 & d2 & _ & _ & _ & _ & _ & Hs).
      * fold text. rewrite E. discriminate.
      * eexists. exact Hs.
Qed.

Example evaluate_imported_takes_last :
  fst (evaluate_response_quality Imported
         (fun _ _ => ("First 0.25, then 0.8 overall.", 2%Q))
         "Why is the sky blue?" "Rayleigh scattering." ["accuracy"] [])
  = Ok (S754_finite false 7205759403792794 (-53)).
Proof. vm_compute. reflexivity. Qed.

Example float_rounds_to_nearest :
  py_float "1.00000000000000000001" = Ok float_1
  /\ py_float "0.5" = Ok float_0_5
  /\ py_float "0.1" = Ok (S754_finite false 7205759403792794 (-56)).
Proof. vm_compute. repeat split. Qed.

(** C6 (evaluation at the failing input): the notebook never imports
    [re], so with the answer "First 0.25, then 0.8 overall.", whose last
    decimal match is "0.8", [evaluate_response_quality] makes its call and
    then raises NameError instead of returning 0.8; it does so on every
    input. *)
Theorem evaluate_response_quality_raises_with_match :
  Re.findall "First 0.25, then 0.8 overall." = ["0.25"; "0.8"]
  /\ evaluate_response_quality notebook_re
       (fun _ _ => ("First 0.25, then 0.8 overall.", 2%Q))
       "Why is the sky blue?" "Rayleigh scattering." ["accuracy"] []
     = (Raise NameError,
        [eval_prompt_of "Why is the sky blue?" "Rayleigh scattering."
           ["accuracy"]])
  /\ forall client prompt response criteria log,
      fst (evaluate_response_quality notebook_re client prompt response
             criteria log)
      = Raise NameError.
Proof.
  split; [reflexivity|]. split; [reflexivity|].
  intros. unfold notebook_re.
  now rewrite evaluate_response_quality_unbound.
Qed.

(** C9 (evaluation at the failing input): with the answers "Score: 1" and
    "9/10", which have no substring digits '.' digits,
    [evaluate_response_quality] raises NameError instead of returning 0.5:
    the name [re] is used before the fallback is reached, and the notebook
    never imports it. *)
Theorem evaluate_response_quality_raises_without_match :
  ~ EvaluatorSpec.HasDecimal "Score: 1"
  /\ ~ EvaluatorSpec.HasDecimal "9/10"
  /\ fst (evaluate_response_quality notebook_re
            (fun _ _ => ("Score: 1", 2%Q))
            "Why is the sky blue?" "Rayleigh scattering." ["accuracy"] [])
     = Raise NameError
  /\ fst (evaluate_response_quality notebook_re (fun _ _ => ("9/10", 2%Q))
            "Why is the sky blue?" "Rayleigh scattering." ["accuracy"] [])
     = Raise NameError.
Proof.
  split; [|split; [|split; reflexivity]];
    intros H; apply has_decimalb_spec in H; discriminate H.
Qed.

(** C1 (counterexample): the generation capability may answer
    "Score: 7.5". The notebook as shipped then returns no float at all
    (NameError, [re] being unbound); and in a session that has imported
    [re] the score returned is 7.5, above 1. In neither case is the result
    a float in the interval from 0 to 1. *)
Lemma evaluate_response_quality_above_one :
  let client := fun (_ : nat) (_ : string) => ("Score: 7.5", 2%Q) in
  let run := fun re =>
    fst (evaluate_response_quality re client "Why is the sky blue?"
           "Rayleigh scattering." ["accuracy"] []) in
  run notebook_re = Raise NameError
  /\ run Imported = Ok (S754_finite false 8444249301319680 (-50))
  /\ float_le (S754_finite false 8444249301319680 (-50)) float_1 = false
  /\ forall re,
      ~ exists v, run re = Ok v
                  /\ float_le float_0 v = true /\ float_le v float_1 = true.
Proof.
  intros client run.
  assert (run notebook_re = Raise NameError) as H1 by reflexivity.
  assert (run Imported = Ok (S754_finite false 8444249301319680 (-50)))
    as H2 by (vm_compute; reflexivity).
  split; [exact H1|]. split; [exact H2|]. split; [reflexivity|].
  intros [|] (v & Hv & _ & Hle).
  - change Unbound with notebook_re in Hv. rewrite H1 in Hv. discriminate Hv.
  - rewrite H2 in Hv. inversion Hv; subst v. discriminate Hle.
Qed.

(** C1 (amended): in a session in which [re] is bound to the regular
    expression module, [evaluate_response_quality] always returns a
    float, and the float is not negative (nor a NaN): it is 0.5 when the
    text has no match, and otherwise what [float] gives for the last
    match, the nearest binary64 number, with no clamping applied. *)
Theorem evaluate_response_quality_unclamped
  (client : nat -> string -> string * Q)
  (prompt response : string) (criteria log : list string) :
  let text :=
    EvaluatorSpec.evaluation_text client prompt response criteria log in
  exists v,
    fst (evaluate_response_quality Imported client prompt response criteria
           log) = Ok v
    /\ float_le float_0 v = true
    /\ (Re.findall text = [] -> v = float_0_5)
    /\ (forall front m,
          Re.findall text = front +++ [m] -> py_float m = Ok v).
Proof.
  intros text.
  destruct (Re.findall text) as [|m0 l] eqn:E.
  - exists float_0_5. split; [|split; [|split]].
    + now rewrite (evaluate_without_match client _ _ _ _ E).
    + reflexivity.
    + reflexivity.
    + intros front m H. destruct front; discriminate H.
  - destruct (evaluate_with_matches client prompt response criteria log)
      as (front & d1 & d2 & Ef & Hn1 & Hn2 & H1 & H2 & Hs).
    { fold text. rewrite E. discriminate. }
    fold text in Ef. rewrite E in Ef.
    exists (decimal_float d1 d2). split; [exact Hs|]. split; [|split].
    + apply decimal_float_nonneg.
    + discriminate.
    + intros front' m Ef'. rewrite Ef in Ef'.
      apply app_inj_tail in Ef' as [_ <-].
      now apply py_float_literal.
Qed.

(** ** Layer experiments *)

Section DictFacts.

Context {V : Type}.

Lemma dict_set_fresh (d : dict V) (k : string) (v : V) :
  ~ In k (keys d) -> dict_set d k v = d +++ [(k, v)].
Proof.
  induction d as [|[k' v'] d IH]; simpl; intros Hk; [reflexivity|].
  destruct (String.eqb_spec k' k) as [->|Hne].
  - contradiction Hk. now left.
  - rewrite IH; [reflexivity|]. intros Hin. apply Hk. now right.
Qed.

Lemma keys_app (d1 d2 : dict V) : keys (d1 +++ d2) = keys d1 +++ keys d2.
Proof. apply map_app. Qed.

End DictFacts.

Lemma layer_label_inj (a b : string) : "base+" ++ a = "base+" ++ b -> a = b.
Proof. simpl. intros H. now inversion H. Qed.

Lemma layer_label_not_base (a : string) : "base+" ++ a <> "base".
Proof. simpl. intros H. inversion H. Qed.

Lemma layer_label_not_all (a : string) : "base+" ++ a <> "all_layers".
Proof. simpl. intros H. inversion H. Qed.

Lemma layer_labels_NoDup (names : list string) :
  NoDup names -> NoDup (map (fun name => "base+" ++ name) names).
Proof.
  induction 1 as [|name names Hn _ IH]; simpl; constructor; [|exact IH].
  intros Hin. apply in_map_iff in Hin as (b & E & Hb).
  apply layer_label_inj in E. subst b. contradiction.
Qed.

Section RunnerFacts.

Import RunnerSpec.

Variable tokenizer : option (string -> list nat).
Variable client : nat -> string -> string * Q.

Lemma measure_total (n : nat) (prompt : string) :
  exists m, measure tokenizer client n prompt = Ok m.
Proof.
  unfold measure. destruct (client n prompt) as [response lat].
  apply calculate_metrics_total.
Qed.

(** One measured variant: a call to the generation capability, then the
    metrics of its answer. *)
Lemma measure_step {B} (prompt : string) (k : Metrics -> Gen B)
  (log : list string) :
  bind (generate_response client prompt)
    (fun x =>
       match x with
       | (response, lat) =>
           bind (lift (calculate_metrics tokenizer prompt response lat)) k
       end) log
  = match measure tokenizer client (List.length log) prompt with
    | Ok m => k m (log +++ [prompt])
    | Raise e => (Raise e, log +++ [prompt])
    end.
Proof.
  unfold bind, generate_response, lift, measure.
  destruct (client _ _) as [response lat].
  destruct (calculate_metrics _ _ _ _); reflexivity.
Qed.

Lemma layers_loop_entries (base_prompt : string) (items : dict string) :
  forall (d : dict Metrics) (log : list string),
    NoDup (keys items) ->
    (forall name, In name (keys items) -> ~ In ("base+" ++ name) (keys d)) ->
    exists entries,
      layers_loop tokenizer client base_prompt items d log
      = (Ok (d +++ entries),
         log +++ map (fun it => base_prompt ++ NLNL ++ snd it) items)
      /\ keys entries = map (fun name => "base+" ++ name) (keys items)
      /\ forall i name text,
          nth_error items i = Some (name, text) ->
          exists m,
            measure tokenizer client (List.length log + i)
              (base_prompt ++ NLNL ++ text) = Ok m
            /\ nth_error entries i = Some ("base+" ++ name, m).
Proof.
  induction items as [|[name text] items IH]; intros d log Hnd Hfresh.
  - exists []. simpl. unfold ret. rewrite !app_nil_r.
    repeat split. intros [|i] n t H; discriminate H.
  - cbn [layers_loop]. rewrite measure_step.
    destruct (measure_total (List.length log) (base_prompt ++ NLNL ++ text))
      as [m Hm].
    rewrite Hm.
    simpl in Hnd. inversion Hnd as [|? ? Hname Hnd']; subst.
    rewrite dict_set_fresh by (apply Hfresh; now left).
    destruct (IH (d +++ [("base+" ++ name, m)])
                (log +++ [base_prompt ++ NLNL ++ text]) Hnd')
      as (entries & Hrun & Hkeys & Hnth).
    { intros name' Hin. rewrite keys_app. intros Hk.
      apply in_app_or in Hk as [Hk|[Hk|[]]].
      - apply (Hfresh name'); [now right | exact Hk].
      - apply layer_label_inj in Hk. subst name'. contradiction. }
    exists (("base+" ++ name, m) :: entries). split; [|split].
    + rewrite Hrun. rewrite <- !app_assoc. reflexivity.
    + simpl. now rewrite Hkeys.
    + intros [|i] n t H.
      * inversion H; subst. exists m. rewrite Nat.add_0_r. now split.
      * destruct (Hnth i n t H) as (m' & Hm' & He).
        exists m'. split; [|exact He].
        rewrite length_app in Hm'. simpl in Hm'.
        now replace (List.length log + S i)
          with (List.length log + 1 + i) by lia.
Qed.

End RunnerFacts.

Lemma bind_ok {A B} (c : Gen A) (k : A -> Gen B) (log log' : list string)
  (a : A) :
  c log = (Ok a, log') -> bind c k log = k a log'.
Proof. unfold bind. now intros ->. Qed.

Lemma nth_error_app_Some {A} (l l' : list A) (i : nat) (x : A) :
  nth_error l i = Some x -> nth_error (l +++ l') i = Some x.
Proof.
  intros H. rewrite nth_error_app1; [exact H|].
  apply nth_error_Some. congruence.
Qed.

(** C5: for a mapping of k named layers (their names are distinct),
    [test_layered_contexts] returns a mapping of exactly k + 2 entries whose
    keys are, in insertion order, "base", then "base+{name}" for each layer
    in the order of the mapping, then "all_layers". The entry of each layer
    holds the metrics measured for base_prompt, a blank line, layer_text;
    the first entry those of the base prompt alone, the last those of the
    base prompt, a blank line, and all layer texts joined by blank lines. *)
Theorem test_layered_contexts_variants
  (tokenizer : option (string -> list nat))
  (client : nat -> string -> string * Q)
  (base_prompt : string) (context_layers : dict string)
  (log : list string) :
  NoDup (keys context_layers) ->
  let k := List.length context_layers in
  let full_prompt := base_prompt ++ NLNL ++ join NLNL (values context_layers) in
  exists results,
    test_layered_contexts tokenizer client base_prompt context_layers log
    = (Ok results,
       log +++ [base_prompt]
       +++ map (fun it => base_prompt ++ NLNL ++ snd it) context_layers
       +++ [full_prompt])
    /\ List.length results = k + 2
    /\ keys results
       = ["base"]
         +++ map (fun name => "base+" ++ name) (keys context_layers)
         +++ ["all_layers"]
    /\ (forall i name text,
          nth_error context_layers i = Some (name, text) ->
          RunnerSpec.Variant tokenizer client results (S i)
            (List.length log + S i)
            ("base+" ++ name) (base_prompt ++ NLNL ++ text))
    /\ RunnerSpec.Variant tokenizer client results 0 (List.length log)
         "base" base_prompt
    /\ RunnerSpec.Variant tokenizer client results (S k)
         (List.length log + S k) "all_layers" full_prompt.
Proof.
  intros Hnd k full_prompt. unfold test_layered_contexts.
  rewrite measure_step.
  destruct (measure_total tokenizer client (List.length log) base_prompt)
    as [m0 Hm0].
  rewrite Hm0. cbn [dict_set].
  destruct (layers_loop_entries tokenizer client base_prompt context_layers
              [("base", m0)] (log +++ [base_prompt]) Hnd)
    as (entries & Hrun & Hkeys & Hnth).
  { intros name _ [H|[]]. symmetry in H.
    exact (layer_label_not_base name H). }
  rewrite (bind_ok _ _ _ _ _ Hrun). fold full_prompt.
  rewrite measure_step.
  set (log2 := (log +++ [base_prompt])
               +++ map (fun it => base_prompt ++ NLNL ++ snd it)
                     context_layers).
  destruct (measure_total tokenizer client (List.length log2) full_prompt)
    as [m2 Hm2].
  rewrite Hm2. unfold ret.
  assert (List.length entries = k) as Hlen.
  { unfold k. rewrite <- (length_map fst entries).
    change (map fst entries) with (keys entries).
    rewrite Hkeys. unfold keys. now rewrite !length_map. }
  rewrite dict_set_fresh.
  2:{ rewrite keys_app, Hkeys. intros Hin.
      apply in_app_or in Hin as [[H|[]]|Hin]; [discriminate H|].
      apply in_map_iff in Hin as (name & E & _).
      exact (layer_label_not_all name E). }
  exists (([("base", m0)] +++ entries) +++ [("all_layers", m2)]).
  split; [|split; [|split; [|split; [|split]]]].
  - unfold log2. rewrite <- !app_assoc. reflexivity.
  - rewrite !length_app. simpl. lia.
  - rewrite !keys_app, Hkeys. rewrite <- app_assoc. reflexivity.
  - intros i name text Hi.
    destruct (Hnth i name text Hi) as (m & Hm & He).
    exists m. split.
    + rewrite length_app in Hm. simpl in Hm.
      now replace (List.length log + S i)
        with (List.length log + 1 + i) by lia.
    + cbn [List.app nth_error]. now apply nth_error_app_Some.
  - exists m0. split; [exact Hm0 | reflexivity].
  - exists m2. split.
    + unfold log2 in Hm2. rewrite !length_app, length_map in Hm2.
      simpl in Hm2. fold k in Hm2.
      now replace (List.length log + S k)
        with (List.length log + 1 + k) by lia.
    + cbn [List.app nth_error]. rewrite nth_error_app2 by lia.
      rewrite Hlen, Nat.sub_diag. reflexivity.
Qed.

Lemma test_layered_contexts_variants_witness :
  let layers := [("role", "You are a tutor."); ("tone", "Be kind.")] in
  let tokenizer :=
    Some (fun text => map nat_of_ascii (list_ascii_of_string text)) in
  let client := fun (n : nat) (_ : string) => ("An answer here.", 2%Q) in
  exists results,
    test_layered_contexts tokenizer client "Explain tides." layers []
    = (Ok results,
       [] +++ ["Explain tides."]
       +++ map (fun it => "Explain tides." ++ NLNL ++ snd it) layers
       +++ ["Explain tides." ++ NLNL ++ join NLNL (values layers)])
    /\ List.length results = 2 + 2
    /\ keys results
       = ["base"] +++ map (fun name => "base+" ++ name) (keys layers)
         +++ ["all_layers"]
    /\ (forall i name text,
          nth_error layers i = Some (name, text) ->
          RunnerSpec.Variant tokenizer client results (S i) (0 + S i)
            ("base+" ++ name) ("Explain tides." ++ NLNL ++ text))
    /\ RunnerSpec.Variant tokenizer client results 0 0 "base" "Explain tides."
    /\ RunnerSpec.Variant tokenizer client results 3 (0 + 3) "all_layers"
         ("Explain tides." ++ NLNL ++ join NLNL (values layers)).
Proof.
  intros layers tokenizer client.
  apply (test_layered_contexts_variants tokenizer client "Explain tides."
           layers []).
  repeat constructor; simpl; intuition discriminate.
Defined.

Example test_layered_contexts_keys :
  RunnerSpec.keys_of_run
    (test_layered_contexts None (fun _ _ => ("An answer here.", 2%Q))
       "Explain tides." [("role", "You are a tutor."); ("tone", "Be kind.")] [])
  = Some ["base"; "base+role"; "base+tone"; "all_layers"].
Proof. reflexivity. Qed.

(** * Further properties *)

(** ** Token counting without a tokenizer *)

Section SplitFacts.

Import TextSpec.

Lemma split_from_nil_iff (s cur : string) :
  split_from cur s = [] <-> cur = EmptyString /\ all_space s = true.
Proof.
  revert cur. induction s as [|c s IH]; intros cur; simpl.
  - destruct cur; split; try tauto; try discriminate.
    intros [H _]; discriminate H.
  - destruct (is_space c); simpl.
    + destruct cur.
      * rewrite IH. tauto.
      * split; [discriminate | intros [H _]; discriminate H].
    + rewrite IH. split; [|intros [_ H]; discriminate H].
      intros [H _]. destruct cur; discriminate H.
Qed.

Lemma split_from_space_sep (a b cur : string) (c : ascii) :
  is_space c = true ->
  split_from cur (a ++ String c b) = split_from cur a +++ split b.
Proof.
  intros Hc. revert cur. induction a as [|x a IH]; intros cur; simpl.
  - rewrite Hc. destruct cur; reflexivity.
  - destruct (is_space x).
    + destruct cur; simpl; now rewrite IH.
    + apply IH.
Qed.

Lemma split_skip_spaces (sep b : string) :
  all_space sep = true -> split (sep ++ b) = split b.
Proof.
  induction sep as [|c sep IH]; simpl; intros H; [reflexivity|].
  apply andb_true_iff in H as [Hc Hs].
  unfold split. simpl. rewrite Hc. now apply IH.
Qed.

Lemma split_app_sep (a sep b : string) :
  sep <> EmptyString -> all_space sep = true ->
  split (a ++ sep ++ b) = split a +++ split b.
Proof.
  intros Hne Hs. destruct sep as [|c sep]; [contradiction Hne; reflexivity|].
  simpl in Hs. apply andb_true_iff in Hs as [Hc Hs].
  unfold split. cbn [append]. rewrite (split_from_space_sep _ _ _ _ Hc).
  now rewrite (split_skip_spaces sep b Hs).
Qed.

End SplitFacts.

(** X1: without a tokenizer, [count_tokens] is zero exactly for the texts
    made of whitespace only (the empty text among them); these are the
    prompts for which [calculate_metrics] takes its guarded branch. *)
Theorem count_tokens_fallback_zero_iff (text : string) :
  (num_val (count_tokens None text) == 0)%Q
  <-> TextSpec.all_space text = true.
Proof.
  rewrite count_tokens_fallback. cbn [num_val].
  pose proof (split_from_nil_iff text EmptyString) as N. fold (split text) in N.
  split.
  - intros H. apply N.
    destruct (split text) as [|w l]; [reflexivity|].
    exfalso. revert H. unfold float_1_3, Qeq. cbn -[Z.of_nat Z.mul].
    cbn [List.length]. lia.
  - intros H. assert (split text = []) as -> by (apply N; tauto).
    reflexivity.
Qed.

(** X2: the words of two texts joined by a non-empty run of whitespace
    are the words of the first followed by the words of the second; so,
    without a tokenizer, the count of the joined text (of each layered
    prompt base_prompt, blank line, layer_text, for one) is 1.3 times the
    sum of the two numbers of words. *)
Theorem count_tokens_fallback_joined (a sep b : string) :
  sep <> EmptyString -> TextSpec.all_space sep = true ->
  split (a ++ sep ++ b) = split a +++ split b
  /\ count_tokens None (a ++ sep ++ b)
     = PyFloat (inject_Z (Z.of_nat (List.length (split a)
                                    + List.length (split b)))
                * float_1_3)%Q.
Proof.
  intros Hne Hs. split; [now apply split_app_sep|].
  rewrite count_tokens_fallback, (split_app_sep a sep b Hne Hs), length_app.
  reflexivity.
Qed.

Lemma count_tokens_fallback_joined_witness :
  split ("Explain tides." ++ NLNL ++ "Be kind.")
  = split "Explain tides." +++ split "Be kind."
  /\ count_tokens None ("Explain tides." ++ NLNL ++ "Be kind.")
     = PyFloat (inject_Z (Z.of_nat (List.length (split "Explain tides.")
                                    + List.length (split "Be kind.")))
                * float_1_3)%Q.
Proof.
  apply count_tokens_fallback_joined; [discriminate | reflexivity].
Defined.

(** ** Metrics *)

(** X4: on every input [calculate_metrics] returns metrics that carry the
    two token counts and the latency as given; token_efficiency is never
    negative, and latency_per_1k is not negative when the latency is
    not. *)
Theorem calculate_metrics_fields
  (tokenizer : option (string -> list nat))
  (prompt response : string) (lat : Q) :
  exists m,
    calculate_metrics tokenizer prompt response lat = Ok m
    /\ prompt_tokens m = count_tokens tokenizer prompt
    /\ response_tokens m = count_tokens tokenizer response
    /\ latency m = lat
    /\ (0 <= num_val (token_efficiency m))%Q
    /\ ((0 <= lat)%Q -> (0 <= num_val (latency_per_1k m))%Q).
Proof.
  unfold calculate_metrics.
  pose proof (count_tokens_nonneg tokenizer prompt) as Hp.
  pose proof (count_tokens_nonneg tokenizer response) as Hr.
  destruct (num_gt0 (count_tokens tokenizer prompt)) eqn:G.
  - unfold truediv. rewrite (num_gt0_true_nonzero _ G). cbn [rbind].
    eexists. split; [reflexivity|].
    cbn [token_efficiency latency_per_1k prompt_tokens response_tokens
         latency num_mul num_val].
    assert (0 <= / num_val (count_tokens tokenizer prompt))%Q as Hi
      by now apply Qinv_le_0_compat.
    repeat split.
    + now apply Qmult_le_0_compat.
    + intros Hl. apply Qmult_le_0_compat; [|discriminate].
      now apply Qmult_le_0_compat.
  - cbn [rbind]. eexists. split; [reflexivity|].
    cbn. repeat split; discriminate.
Qed.

(** ** Requests sent to the generation capability *)

Section SubstringFacts.

Import RetrievalSpec.

Lemma Substring_refl (x : string) : Substring x x.
Proof. exists EmptyString, EmptyString. simpl. now rewrite append_nil_r. Qed.

Lemma Substring_app_r (x y b : string) :
  Substring x y -> Substring x (y ++ b).
Proof.
  intros (pre & post & ->). exists pre, (post ++ b).
  now rewrite !append_assoc.
Qed.

Lemma Substring_app_l (x a y : string) :
  Substring x y -> Substring x (a ++ y).
Proof.
  intros (pre & post & ->). exists (a ++ pre), post.
  now rewrite !append_assoc.
Qed.

Lemma Substring_join (sep x : string) (l : list string) :
  In x l -> Substring x (join sep l).
Proof.
  unfold join. induction l as [|y l IH]; intros Hin; [contradiction|].
  destruct l as [|z l].
  - destruct Hin as [->|[]]. apply Substring_refl.
  - cbn [concat]. cbn [concat] in IH. destruct Hin as [->|Hin].
    + apply Substring_app_r, Substring_refl.
    + apply Substring_app_l, Substring_app_l. now apply IH.
Qed.

End SubstringFacts.

Ltac embedded :=
  repeat first
    [ apply Substring_refl
    | apply Substring_app_r; apply Substring_refl
    | apply Substring_app_l ].

(** X5: each of the techniques summarize, keywords and bullet makes
    exactly one call to the generation capability, with a prompt in which
    the context occurs, and returns the text of the answer as it is. *)
Theorem compress_context_single_call
  (client : nat -> string -> string * Q)
  (context technique : string) (log : list string) :
  technique = "summarize" \/ technique = "keywords" \/ technique = "bullet" ->
  exists prompt,
    RetrievalSpec.Substring context prompt
    /\ compress_context client context technique log
       = (Ok (fst (client (List.length log) prompt)), log +++ [prompt]).
Proof.
  intros [-> | [-> | ->]]; unfold compress_context; simpl;
    unfold bind, generate_response;
    match goal with
    | |- context [client ?n ?p] => exists p; destruct (client n p)
    end; (split; [|reflexivity]).
  - exists ("Summarize the following context in a concise way that preserves "
            ++ "all key information:" ++ NL), EmptyString.
    simpl. now rewrite append_nil_r.
  - exists ("Extract the most important keywords and phrases from this context:"
            ++ NL),
      (NL ++ "Format your response as a comma-separated list.").
    reflexivity.
  - exists ("Convert this context into a concise list of bullet points that"
            ++ NL ++ "captures all essential information:" ++ NL),
      EmptyString.
    simpl. now rewrite append_nil_r.
Qed.

Lemma compress_context_single_call_witness :
  exists prompt,
    RetrievalSpec.Substring "Tides follow the moon." prompt
    /\ compress_context (fun _ _ => ("Moon tides.", 2%Q))
         "Tides follow the moon." "keywords" []
       = (Ok (fst ((fun (_ : nat) (_ : string) => ("Moon tides.", 2%Q))
                     (List.length (@nil string)) prompt)),
          [] +++ [prompt]).
Proof.
  apply (compress_context_single_call (fun _ _ => ("Moon tides.", 2%Q))).
  right; left; reflexivity.
Defined.

(** X6: [evaluate_response_quality] makes exactly one call to the
    generation capability, whether or not a score is found in the answer
    and whether or not [re] is bound; the prompt, the response and each
    criterion, as a line "- criterion", occur in the request. *)
Theorem evaluate_response_quality_request
  (re : binding) (client : nat -> string -> string * Q)
  (prompt response : string) (criteria log : list string) :
  let request := eval_prompt_of prompt response criteria in
  snd (evaluate_response_quality re client prompt response criteria log)
  = log +++ [request]
  /\ RetrievalSpec.Substring prompt request
  /\ RetrievalSpec.Substring response request
  /\ forall c, In c criteria -> RetrievalSpec.Substring ("- " ++ c) request.
Proof.
  intros request. split; [|split; [|split]].
  - apply evaluate_response_quality_log.
  - unfold request, eval_prompt_of. embedded.
  - unfold request, eval_prompt_of. embedded.
  - intros c Hc. unfold request, eval_prompt_of.
    do 10 apply Substring_app_l. apply Substring_app_r.
    apply Substring_join. now apply (in_map (fun c => "- " ++ c)).
Qed.

Lemma evaluate_response_quality_request_witness :
  let request :=
    eval_prompt_of "Why is the sky blue?" "Rayleigh scattering."
      ["accuracy"; "brevity"] in
  snd (evaluate_response_quality notebook_re (fun _ _ => ("Score: 1", 2%Q))
         "Why is the sky blue?" "Rayleigh scattering."
         ["accuracy"; "brevity"] ["earlier"])
  = ["earlier"] +++ [request]
  /\ RetrievalSpec.Substring "- brevity" request.
Proof.
  intros request.
  pose proof (evaluate_response_quality_request notebook_re
                (fun _ _ => ("Score: 1", 2%Q))
                "Why is the sky blue?" "Rayleigh scattering."
                ["accuracy"; "brevity"] ["earlier"]) as (H1 & _ & _ & H4).
  split; [exact H1|]. apply (H4 "brevity"). right; left; reflexivity.
Defined.

(** ** Text behind the last score *)

Section TrailingText.

Import Re TextSpec EvaluatorSpec.

Lemma span_digits_no_digit (suffix : string) :
  no_digit suffix = true -> span_digits suffix = (EmptyString, suffix).
Proof.
  destruct suffix as [|c suffix]; simpl; [reflexivity|].
  intros H. apply andb_true_iff in H as [Hc _].
  apply negb_true_iff in Hc. now rewrite Hc.
Qed.

Lemma span_digits_suffix (s suffix : string) :
  no_digit suffix = true ->
  span_digits (s ++ suffix)
  = (fst (span_digits s), snd (span_digits s) ++ suffix).
Proof.
  intros H. induction s as [|c s IH]; simpl.
  - now apply span_digits_no_digit.
  - destruct (is_digit c); [|reflexivity].
    rewrite IH. destruct (span_digits s); reflexivity.
Qed.

Lemma match_decimal_suffix (s suffix : string) :
  no_digit suffix = true ->
  match_decimal (s ++ suffix)
  = match match_decimal s with
    | Some (m, rest) => Some (m, rest ++ suffix)
    | None => None
    end.
Proof.
  intros H. unfold match_decimal. rewrite (span_digits_suffix s suffix H).
  destruct (span_digits s) as [d1 r]. cbn [fst snd].
  destruct d1 as [|c1 d1]; [reflexivity|].
  destruct r as [|c r1].
  - cbn [append]. destruct suffix as [|c suffix]; [reflexivity|].
    destruct (Ascii.eqb c "."); [|reflexivity].
    simpl in H. apply andb_true_iff in H as [_ H].
    now rewrite (span_digits_no_digit suffix H).
  - cbn [append]. destruct (Ascii.eqb c "."); [|reflexivity].
    rewrite (span_digits_suffix r1 suffix H).
    destruct (span_digits r1) as [d2 r2]. cbn [fst snd].
    destruct d2; reflexivity.
Qed.

Lemma findall_no_digit (suffix : string) :
  no_digit suffix = true -> findall suffix = [].
Proof.
  induction suffix as [|c suffix IH]; intros H; [reflexivity|].
  rewrite findall_miss.
  - apply IH. simpl in H. now apply andb_true_iff in H as [_ H].
  - unfold match_decimal. now rewrite (span_digits_no_digit _ H).
Qed.

(** Text without digits, put behind a text, adds no match and changes
    none. *)
Lemma findall_suffix (s suffix : string) :
  no_digit suffix = true -> findall (s ++ suffix) = findall s.
Proof.
  revert suffix. funelim (findall s); intros suffix Hs.
  - now apply findall_no_digit.
  - cbn [append].
    pose proof (match_decimal_suffix (String c s') suffix Hs) as M.
    rewrite e in M. cbn [append] in M.
    rewrite (findall_hit _ _ _ _ M). f_equal. now apply H.
  - cbn [append].
    pose proof (match_decimal_suffix (String c s') suffix Hs) as M.
    rewrite e in M. cbn [append] in M.
    rewrite (findall_miss _ _ M). now apply H.
Qed.

End TrailingText.

(** X7: whatever the binding of [re], text without any digit that
    follows the evaluation text does not change the outcome of
    [evaluate_response_quality]: two answers of the generation capability
    that differ by such a suffix give the same score once [re] is
    imported, and the same NameError in the notebook as shipped. *)
Theorem evaluate_response_quality_trailing_text
  (re : binding) (client client' : nat -> string -> string * Q)
  (prompt response : string) (criteria log : list string)
  (suffix : string) :
  TextSpec.no_digit suffix = true ->
  EvaluatorSpec.evaluation_text client' prompt response criteria log
  = EvaluatorSpec.evaluation_text client prompt response criteria log
    ++ suffix ->
  evaluate_response_quality re client' prompt response criteria log
  = evaluate_response_quality re client prompt response criteria log.
Proof.
  intros Hs Ht. destruct re.
  - now rewrite !evaluate_response_quality_unbound.
  - rewrite !evaluate_response_quality_run. cbv zeta.
    rewrite Ht, (findall_suffix _ _ Hs). reflexivity.
Qed.

Lemma evaluate_response_quality_trailing_text_witness :
  evaluate_response_quality Imported
    (fun _ _ => ("Score: 0.8 out of one, all told.", 2%Q))
    "Why is the sky blue?" "Rayleigh scattering." ["accuracy"] []
  = evaluate_response_quality Imported (fun _ _ => ("Score: 0.8", 5%Q))
      "Why is the sky blue?" "Rayleigh scattering." ["accuracy"] [].
Proof.
  apply (evaluate_response_quality_trailing_text Imported _ _ _ _ _ _
           " out of one, all told."); reflexivity.
Defined.

(** ** More on retrieval *)

Section RetrievalMore.

Import RetrievalSpec.

Lemma In_firstn {A} (n : nat) (l : list A) (x : A) :
  In x (firstn n l) -> In x l.
Proof.
  intros H. rewrite <- (firstn_skipn n l). apply in_or_app. now left.
Qed.

Lemma firstn_app_firstn {A} (n : nat) (l1 l2 : list A) :
  firstn n (firstn n l1 +++ firstn n l2) = firstn n (l1 +++ l2).
Proof.
  rewrite !firstn_app, !firstn_firstn, length_firstn.
  rewrite Nat.min_id. f_equal.
  replace (Init.Nat.min (n - Init.Nat.min n (List.length l1)) n)
    with (n - List.length l1) by lia.
  reflexivity.
Qed.

Lemma item_matches_same_terms (terms1 terms2 : list string)
  (item : KnowledgeItem) :
  (forall t, In t terms1 <-> In t terms2) ->
  item_matches terms1 item = item_matches terms2 item.
Proof.
  intros H. unfold item_matches.
  apply eq_true_iff_eq. rewrite !existsb_exists.
  split; intros (t & Hin & Ht); exists t; split; try exact Ht; now apply H.
Qed.

End RetrievalMore.

(** X8: [retrieve_relevant_info] returns at most three strings, and each
    of them is the content, in its original case, of an item of the
    knowledge base that matches the query. *)
Theorem retrieve_relevant_info_sound
  (query : string) (knowledge_base : list KnowledgeItem) :
  List.length (retrieve_relevant_info query knowledge_base) <= 3
  /\ forall info,
      In info (retrieve_relevant_info query knowledge_base) ->
      exists item,
        In item knowledge_base
        /\ RetrievalSpec.ItemMatches query item
        /\ content item = info.
Proof.
  split; [apply retrieve_relevant_info_limit|].
  intros info. rewrite retrieve_relevant_info_filter.
  intros H. apply in_map_iff in H as (item & E & Hin).
  apply In_firstn, filter_In in Hin as [Hkb Hm].
  exists item. split; [exact Hkb|]. split; [|exact E].
  now apply item_matches_spec.
Qed.

Lemma retrieve_relevant_info_sound_witness :
  exists item,
    In item [mkItem "Tides" "Sea level."; mkItem "Weather" "About Climates."]
    /\ RetrievalSpec.ItemMatches "climate" item
    /\ content item = "About Climates.".
Proof.
  apply (proj2 (retrieve_relevant_info_sound "climate"
                  [mkItem "Tides" "Sea level.";
                   mkItem "Weather" "About Climates."])).
  left; reflexivity.
Defined.

(** X9: retrieving from two knowledge bases put one after the other gives
    the first three of the two retrievals put one after the other; once
    the first has given three contents, the second is never looked at. *)
Theorem retrieve_relevant_info_app
  (query : string) (kb1 kb2 : list KnowledgeItem) :
  retrieve_relevant_info query (kb1 +++ kb2)
  = firstn 3 (retrieve_relevant_info query kb1
              +++ retrieve_relevant_info query kb2)
  /\ (List.length (retrieve_relevant_info query kb1) = 3 ->
      retrieve_relevant_info query (kb1 +++ kb2)
      = retrieve_relevant_info query kb1).
Proof.
  assert (retrieve_relevant_info query (kb1 +++ kb2)
          = firstn 3 (retrieve_relevant_info query kb1
                      +++ retrieve_relevant_info query kb2)) as E.
  { rewrite !retrieve_relevant_info_filter, filter_app.
    rewrite <- !firstn_map, map_app. symmetry. apply firstn_app_firstn. }
  split; [exact E|]. intros H3. rewrite E, firstn_app, H3.
  rewrite Nat.sub_diag, firstn_O, app_nil_r.
  apply firstn_all2. lia.
Qed.

Lemma retrieve_relevant_info_app_witness :
  retrieve_relevant_info "tide"
    ([mkItem "Tides" "One."; mkItem "Low tide" "Two.";
      mkItem "High tide" "Three."] +++ [mkItem "Tidal power" "Four."])
  = retrieve_relevant_info "tide"
      [mkItem "Tides" "One."; mkItem "Low tide" "Two.";
       mkItem "High tide" "Three."].
Proof.
  apply (proj2 (retrieve_relevant_info_app "tide" _ _)). reflexivity.
Defined.

(** X10: for a query that is empty or made of whitespace only, nothing is
    retrieved, whatever the knowledge base holds, and [create_rag_context]
    returns the base prompt unchanged. *)
Theorem retrieve_blank_query
  (base_prompt query : string) (knowledge_base : list KnowledgeItem) :
  TextSpec.all_space query = true ->
  retrieve_relevant_info query knowledge_base = []
  /\ create_rag_context base_prompt query knowledge_base = base_prompt.
Proof.
  intros H.
  assert (query_terms_of query = []) as T.
  { unfold query_terms_of. rewrite split_lower.
    assert (split query = []) as ->
      by (apply (split_from_nil_iff query EmptyString); tauto).
    reflexivity. }
  assert (retrieve_relevant_info query knowledge_base = []) as R.
  { rewrite retrieve_relevant_info_filter, T.
    assert (filter (item_matches []) knowledge_base = []) as ->
      by (induction knowledge_base; [reflexivity | assumption]).
    reflexivity. }
  split; [exact R|]. unfold create_rag_context. now rewrite R.
Qed.

Lemma retrieve_blank_query_witness :
  retrieve_relevant_info "   " [mkItem "Tides" "Sea level."] = []
  /\ create_rag_context "Explain tides." "   " [mkItem "Tides" "Sea level."]
     = "Explain tides.".
Proof. apply retrieve_blank_query. reflexivity. Defined.

(** X11: what is retrieved depends on the query only through the set of
    its lowercased words: two queries with the same lowercased words, in
    any case, order, repetition or spacing, retrieve the same contents and
    give the same augmented prompt. *)
Theorem retrieve_same_words
  (base_prompt query1 query2 : string) (knowledge_base : list KnowledgeItem) :
  (forall w, In w (map lower (split query1))
             <-> In w (map lower (split query2))) ->
  retrieve_relevant_info query1 knowledge_base
  = retrieve_relevant_info query2 knowledge_base
  /\ create_rag_context base_prompt query1 knowledge_base
     = create_rag_context base_prompt query2 knowledge_base.
Proof.
  intros H.
  assert (retrieve_relevant_info query1 knowledge_base
          = retrieve_relevant_info query2 knowledge_base) as R.
  { rewrite !retrieve_relevant_info_filter. do 2 f_equal.
    apply filter_ext. intros item. apply item_matches_same_terms.
    intros t. unfold query_terms_of. rewrite !nodup_In, !split_lower.
    apply H. }
  split; [exact R|]. unfold create_rag_context. now rewrite R.
Qed.

Lemma retrieve_same_words_witness :
  retrieve_relevant_info "Climate  TEMP climate"
    [mkItem "Weather" "About climates."; mkItem "Air" "Temperate zones."]
  = retrieve_relevant_info "temp CLIMATE"
      [mkItem "Weather" "About climates."; mkItem "Air" "Temperate zones."]
  /\ create_rag_context "Explain." "Climate  TEMP climate"
       [mkItem "Weather" "About climates."; mkItem "Air" "Temperate zones."]
     = create_rag_context "Explain." "temp CLIMATE"
         [mkItem "Weather" "About climates."; mkItem "Air" "Temperate zones."].
Proof.
  apply retrieve_same_words. intros w. simpl. tauto.
Defined.

(** ** More on composition *)

Section ComposerMore.

Import ComposerSpec.

Lemma string_length_app (s t : string) :
  String.length (s ++ t) = String.length s + String.length t.
Proof. induction s as [|c s IH]; simpl; [reflexivity | now rewrite IH]. Qed.

(** In a join of two sections or more, each section leaves room for a
    separator. *)
Lemma join_length_member (sep x : string) (l : list string) :
  In x l -> 2 <= List.length l ->
  String.length x + String.length sep <= String.length (join sep l).
Proof.
  unfold join. induction l as [|y l IH]; intros Hin Hlen; [contradiction|].
  destruct l as [|z l]; [simpl in Hlen; lia|].
  cbn [concat]. cbn [concat] in IH. rewrite !string_length_app.
  destruct Hin as [->|Hin]; [lia|].
  destruct l as [|z' l].
  - destruct Hin as [->|[]]. lia.
  - assert (2 <= List.length (z :: z' :: l)) as L by (simpl; lia).
    specialize (IH Hin L). lia.
Qed.

Lemma clause_nil_iff (arg : option string) (f : string -> string) :
  clause arg f = [] <-> present_str arg = None.
Proof.
  unfold clause. destruct (present_str arg); split;
    try reflexivity; discriminate.
Qed.

Lemma requirements_block_nil_iff (constraints : option (list string)) :
  requirements_block constraints = [] <-> present_list constraints = None.
Proof.
  unfold requirements_block. destruct (present_list constraints); split;
    try reflexivity; discriminate.
Qed.

Lemma examples_block_nil_iff (examples : option (list string)) :
  examples_block examples = [] <-> present_list examples = None.
Proof.
  unfold examples_block. destruct (present_list examples); split;
    try reflexivity; discriminate.
Qed.

End ComposerMore.

Lemma create_expanded_context_empty_as_omitted_aux
  (base_prompt : string) (role : option string)
  (examples constraints : option (list string))
  (audience tone output_format : option string) :
  create_expanded_context base_prompt role examples constraints audience tone
    output_format
  = create_expanded_context base_prompt role
      (ComposerSpec.present_list examples)
      (ComposerSpec.present_list constraints) audience tone output_format.
Proof.
  destruct examples as [[|? ?]|], constraints as [[|? ?]|]; reflexivity.
Qed.

(** X12: [create_expanded_context] sees its optional arguments only
    through their truth value: an empty string for role, audience, tone or
    output_format, like an empty list of constraints or examples, gives
    the output of the call without that argument. *)
Theorem create_expanded_context_empty_as_omitted
  (base_prompt : string) (role : option string)
  (examples constraints : option (list string))
  (audience tone output_format : option string) :
  create_expanded_context base_prompt role examples constraints audience tone
    output_format
  = create_expanded_context base_prompt (ComposerSpec.present_str role)
      (ComposerSpec.present_list examples)
      (ComposerSpec.present_list constraints)
      (ComposerSpec.present_str audience) (ComposerSpec.present_str tone)
      (ComposerSpec.present_str output_format).
Proof.
  destruct role as [[|? ?]|], examples as [[|? ?]|],
    constraints as [[|? ?]|], audience as [[|? ?]|], tone as [[|? ?]|],
    output_format as [[|? ?]|]; reflexivity.
Qed.

(** X13: the output is the base prompt itself only when no optional
    section is present: any present section makes the output longer than
    the base prompt by at least the blank-line separator. *)
Theorem create_expanded_context_identity_iff
  (base_prompt : string) (role : option string)
  (examples constraints : option (list string))
  (audience tone output_format : option string) :
  create_expanded_context base_prompt role examples constraints audience tone
    output_format = base_prompt
  <-> (ComposerSpec.present_str role = None
       /\ ComposerSpec.present_list examples = None
       /\ ComposerSpec.present_list constraints = None
       /\ ComposerSpec.present_str audience = None
       /\ ComposerSpec.present_str tone = None
       /\ ComposerSpec.present_str output_format = None).
Proof.
  split.
  - intros E. rewrite context_parts_sections in E.
    unfold ComposerSpec.sections in E. cbn [List.concat] in E.
    rewrite app_nil_r in E.
    set (pre := ComposerSpec.clause role _) in *.
    set (a := ComposerSpec.clause audience _) in *.
    set (t := ComposerSpec.clause tone _) in *.
    set (o := ComposerSpec.clause output_format _) in *.
    set (rq := ComposerSpec.requirements_block constraints) in *.
    set (ex := ComposerSpec.examples_block examples) in *.
    assert (List.length (pre +++ [base_prompt] +++ a +++ t +++ o +++ rq +++ ex)
            < 2) as L.
    { apply Nat.nle_gt. intros L.
      assert (In base_prompt
                (pre +++ [base_prompt] +++ a +++ t +++ o +++ rq +++ ex)) as Hin
        by (apply in_or_app; right; now left).
      pose proof (join_length_member NLNL _ _ Hin L) as J.
      rewrite E in J. simpl in J. lia. }
    rewrite !length_app in L. simpl in L.
    assert (pre = [] /\ ex = [] /\ rq = [] /\ a = [] /\ t = [] /\ o = [])
      as (Hpre & Hex & Hrq & Ha & Ht & Ho)
      by (repeat split; apply length_zero_iff_nil; lia).
    apply clause_nil_iff in Hpre, Ha, Ht, Ho.
    apply requirements_block_nil_iff in Hrq.
    apply examples_block_nil_iff in Hex. tauto.
  - intros (Hr & He & Hc & Ha & Ht & Ho).
    destruct role as [[|? ?]|]; try discriminate Hr;
      destruct audience as [[|? ?]|]; try discriminate Ha;
      destruct tone as [[|? ?]|]; try discriminate Ht;
      destruct output_format as [[|? ?]|]; try discriminate Ho;
      rewrite create_expanded_context_empty_as_omitted_aux, He, Hc;
      reflexivity.
Qed.

(** ** Edge cases of the layer experiment *)

(** X14: with no layer at all, [test_layered_contexts] still makes two
    calls and returns the two entries "base" and "all_layers"; the second
    call is made with the base prompt followed by a blank line, not with
    the base prompt itself. *)
Theorem test_layered_contexts_no_layers
  (tokenizer : option (string -> list nat))
  (client : nat -> string -> string * Q)
  (base_prompt : string) (log : list string) :
  exists m_base m_all,
    RunnerSpec.measure tokenizer client (List.length log) base_prompt
    = Ok m_base
    /\ RunnerSpec.measure tokenizer client (S (List.length log))
         (base_prompt ++ NLNL) = Ok m_all
    /\ test_layered_contexts tokenizer client base_prompt [] log
       = (Ok [("base", m_base); ("all_layers", m_all)],
          log +++ [base_prompt; base_prompt ++ NLNL]).
Proof.
  destruct (measure_total tokenizer client (List.length log) base_prompt)
    as [m0 H0].
  destruct (measure_total tokenizer client (S (List.length log))
              (base_prompt ++ NLNL)) as [m1 H1].
  exists m0, m1. split; [exact H0|]. split; [exact H1|].
  unfold test_layered_contexts. rewrite measure_step, H0.
  cbn [layers_loop dict_set values map join concat].
  unfold bind at 1. unfold ret at 1. rewrite measure_step.
  rewrite append_nil_r, length_app. cbn [List.length].
  rewrite Nat.add_1_r, H1. unfold ret. cbn [dict_set String.eqb].
  change (Ascii.eqb "b" "a") with false. cbv iota.
  rewrite <- app_assoc. reflexivity.
Qed.

(** X15: with a single layer, the variant "base+{name}" and the variant
    "all_layers" are measured on the same prompt, sent twice: the base
    prompt, a blank line, the text of the layer. *)
Theorem test_layered_contexts_single_layer
  (tokenizer : option (string -> list nat))
  (client : nat -> string -> string * Q)
  (base_prompt name text : string) (log : list string) :
  let layered := base_prompt ++ NLNL ++ text in
  exists m_base m_layer m_all,
    RunnerSpec.measure tokenizer client (List.length log) base_prompt
    = Ok m_base
    /\ RunnerSpec.measure tokenizer client (List.length log + 1) layered
       = Ok m_layer
    /\ RunnerSpec.measure tokenizer client (List.length log + 2) layered
       = Ok m_all
    /\ test_layered_contexts tokenizer client base_prompt [(name, text)] log
       = (Ok [("base", m_base); ("base+" ++ name, m_layer);
              ("all_layers", m_all)],
          log +++ [base_prompt; layered; layered]).
Proof.
  intros layered.
  destruct (measure_total tokenizer client (List.length log) base_prompt)
    as [m0 H0].
  destruct (measure_total tokenizer client (List.length log + 1) layered)
    as [m1 H1].
  destruct (measure_total tokenizer client (List.length log + 2) layered)
    as [m2 H2].
  exists m0, m1, m2. repeat (split; [assumption|]).
  unfold test_layered_contexts. rewrite measure_step, H0.
  cbn [layers_loop values map join concat snd]. fold layered.
  unfold bind at 1. rewrite measure_step.
  rewrite length_app. cbn [List.length]. rewrite H1.
  unfold ret at 1. rewrite measure_step.
  rewrite !length_app. cbn [List.length].
  replace (List.length log + 1 + 1) with (List.length log + 2) by lia.
  rewrite H2. unfold ret.
  change (dict_set [] "base" m0) with [("base", m0)].
  assert (dict_set [("base", m0)] ("base+" ++ name) m1
          = [("base", m0); ("base+" ++ name, m1)]) as ->.
  { apply (dict_set_fresh [("base", m0)]). intros [H|[]].
    symmetry in H. exact (layer_label_not_base name H). }
  rewrite dict_set_fresh.
  - rewrite <- !app_assoc. reflexivity.
  - intros [H|[H|[]]]; [discriminate H|].
    exact (layer_label_not_all name H).
Qed.

(** ** The expansion experiment *)

Section ExperimentFacts.

Import RunnerSpec.

Variable tokenizer : option (string -> list nat).
Variable client : nat -> string -> string * Q.

Lemma expanded_prompts_loop_entries (items : dict string) :
  forall (results : dict Metrics) (responses : dict string)
         (log : list string),
    NoDup (keys items) ->
    (forall name, In name (keys items) ->
                  ~ In name (keys results) /\ ~ In name (keys responses)) ->
    exists new_results new_responses,
      expanded_prompts_loop tokenizer client items results responses log
      = (Ok (results +++ new_results, responses +++ new_responses),
         log +++ values items)
      /\ keys new_results = keys items
      /\ keys new_responses = keys items
      /\ forall i name prompt,
          nth_error items i = Some (name, prompt) ->
          nth_error new_responses i
          = Some (name, fst (client (List.length log + i) prompt))
          /\ exists m,
              measure tokenizer client (List.length log + i) prompt = Ok m
              /\ nth_error new_results i = Some (name, m).
Proof.
  induction items as [|[name prompt] items IH];
    intros results responses log Hnd Hfresh.
  - exists [], []. simpl. unfold ret. rewrite !app_nil_r.
    split; [reflexivity|]. split; [reflexivity|]. split; [reflexivity|].
    intros [|i] n p H; discriminate H.
  - cbn [expanded_prompts_loop]. unfold bind at 1, generate_response at 1.
    destruct (measure_total tokenizer client (List.length log) prompt)
      as [m Hm].
    unfold measure in Hm.
    destruct (client (List.length log) prompt) as [response lat] eqn:Ec.
    unfold bind at 1, lift at 1. rewrite Hm.
    simpl in Hnd. inversion Hnd as [|? ? Hname Hnd']; subst.
    destruct (Hfresh name (or_introl eq_refl)) as [Fr Fp].
    rewrite (dict_set_fresh results name m Fr).
    rewrite (dict_set_fresh responses name response Fp).
    destruct (IH (results +++ [(name, m)]) (responses +++ [(name, response)])
                (log +++ [prompt]) Hnd')
      as (nr & np & Hrun & Hkr & Hkp & Hnth).
    { intros name' Hin. rewrite !keys_app.
      destruct (Hfresh name' (or_intror Hin)) as [F1 F2].
      split; intros Hk; apply in_app_or in Hk as [Hk|[Hk|[]]];
        try contradiction; subst name'; contradiction. }
    exists ((name, m) :: nr), ((name, response) :: np).
    split; [|split; [|split]].
    + rewrite Hrun. rewrite <- !app_assoc. reflexivity.
    + simpl. now rewrite Hkr.
    + simpl. now rewrite Hkp.
    + intros [|i] n p H.
      * inversion H; subst. rewrite Nat.add_0_r, Ec. split; [reflexivity|].
        exists m. unfold measure. rewrite Ec. now split.
      * destruct (Hnth i n p H) as (Hr & m' & Hm' & He).
        rewrite length_app in Hr, Hm'. simpl in Hr, Hm'.
        replace (List.length log + S i)
          with (List.length log + 1 + i) by lia.
        split; [exact Hr|]. exists m'. now split.
Qed.

End ExperimentFacts.

(** X16: the experiment over the named prompt variants makes one call per
    variant, in the order of the mapping, and fills [results] and
    [responses] with one entry per variant under the same names and in the
    same order: the text answered to the prompt, and the metrics of the
    prompt with that answer. *)
Theorem expanded_prompts_experiment_entries
  (tokenizer : option (string -> list nat))
  (client : nat -> string -> string * Q)
  (expanded_prompts : dict string) (log : list string) :
  NoDup (keys expanded_prompts) ->
  exists results responses,
    expanded_prompts_experiment tokenizer client expanded_prompts log
    = (Ok (results, responses), log +++ values expanded_prompts)
    /\ keys results = keys expanded_prompts
    /\ keys responses = keys expanded_prompts
    /\ forall i name prompt,
        nth_error expanded_prompts i = Some (name, prompt) ->
        nth_error responses i
        = Some (name, fst (client (List.length log + i) prompt))
        /\ RunnerSpec.Variant tokenizer client results i
             (List.length log + i) name prompt.
Proof.
  intros Hnd. unfold expanded_prompts_experiment.
  destruct (expanded_prompts_loop_entries tokenizer client expanded_prompts
              [] [] log Hnd)
    as (results & responses & Hrun & Hkr & Hkp & Hnth).
  { intros name _. split; intros []. }
  exists results, responses. repeat split; try assumption.
  - now apply Hnth.
  - now apply Hnth.
Qed.

Lemma expanded_prompts_experiment_entries_witness :
  let prompts :=
    [("base", "Write a paragraph about climate change.");
     ("with_role", "You are an environmental scientist. "
                   ++ NL ++ "Write a paragraph about climate change.")] in
  let client := fun (n : nat) (p : string) => ("An answer.", 2%Q) in
  exists results responses,
    expanded_prompts_experiment None client prompts []
    = (Ok (results, responses), [] +++ values prompts)
    /\ keys results = keys prompts
    /\ keys responses = keys prompts
    /\ forall i name prompt,
        nth_error prompts i = Some (name, prompt) ->
        nth_error responses i = Some (name, fst (client (0 + i) prompt))
        /\ RunnerSpec.Variant None client results i (0 + i) name prompt.
Proof.
  intros prompts client.
  apply (expanded_prompts_experiment_entries None client prompts []).
  repeat constructor; simpl; intuition discriminate.
Defined.

(** ** Consistency sampling *)

Section ConsistencyFacts.

Import MinPrompt TextSpec.

Variable llm_generate : nat -> string -> string.
Variable llm_count_tokens : string -> Z.

Lemma samples_loop_run (n : nat) (prompt : string) :
  forall (responses : list string) (total_tokens : Z) (log : list string),
    samples_loop llm_generate llm_count_tokens n prompt responses
      total_tokens log
    = (Ok (responses +++ answers llm_generate (List.length log) n prompt,
           (total_tokens + Z.of_nat n * llm_count_tokens prompt)%Z),
       log +++ repeat prompt n).
Proof.
  induction n as [|n IH]; intros responses total_tokens log.
  - simpl. unfold ret. rewrite !app_nil_r. do 3 f_equal. lia.
  - cbn [samples_loop]. unfold bind at 1, generate at 1.
    rewrite IH. rewrite length_app. cbn [List.length answers repeat].
    rewrite Nat.add_1_r, <- !app_assoc. do 3 f_equal. lia.
Qed.

End ConsistencyFacts.

(** X17: [measure_consistency] calls the generation method max(0,
    n_samples) times, always with the same prompt; it reports the answers
    in the order of the calls, max(0, n_samples) times the token count of
    the prompt as total_tokens, and the score 0.5 whatever the answers are.
    For a count of samples that is zero or negative it makes no call. *)
Theorem measure_consistency_report
  (llm_generate : nat -> string -> string)
  (llm_count_tokens : string -> Z)
  (prompt : string) (n_samples : Z) (log : list string) :
  let rounds := Z.to_nat n_samples in
  MinPrompt.measure_consistency llm_generate llm_count_tokens prompt
    n_samples log
  = (Ok {| MinPrompt.prompt := prompt;
           MinPrompt.responses :=
             TextSpec.answers llm_generate (List.length log) rounds prompt;
           MinPrompt.total_tokens :=
             (Z.max 0 n_samples * llm_count_tokens prompt)%Z;
           MinPrompt.consistency_score := (1 # 2)%Q |},
     log +++ repeat prompt rounds)
  /\ (List.length
        (TextSpec.answers llm_generate (List.length log) rounds prompt)
      = rounds)
  /\ ((n_samples <= 0)%Z -> rounds = 0).
Proof.
  intros rounds. split; [|split].
  - unfold MinPrompt.measure_consistency, bind.
    rewrite samples_loop_run. fold rounds. unfold ret. cbn [List.app].
    replace (0 + Z.of_nat rounds * llm_count_tokens prompt)%Z
      with (Z.max 0 n_samples * llm_count_tokens prompt)%Z; [reflexivity|].
    assert (Z.of_nat rounds = Z.max 0 n_samples) as -> by (unfold rounds; lia).
    lia.
  - generalize (List.length log). induction rounds as [|r IH]; intros first.
    + reflexivity.
    + simpl. now rewrite IH.
  - unfold rounds. lia.
Qed.

Lemma measure_consistency_report_witness :
  MinPrompt.measure_consistency (fun _ p => p) (fun _ => 7%Z)
    "Write a short poem about programming." (-2) ["earlier"]
  = (Ok {| MinPrompt.prompt := "Write a short poem about programming.";
           MinPrompt.responses := [];
           MinPrompt.total_tokens := 0;
           MinPrompt.consistency_score := (1 # 2)%Q |},
     ["earlier"])
  /\ Z.to_nat (-2) = 0.
Proof.
  split.
  - exact (proj1 (measure_consistency_report (fun _ p => p) (fun _ => 7%Z)
                    "Write a short poem about programming." (-2) ["earlier"])).
  - apply (proj2 (proj2
      (measure_consistency_report (fun _ p => p) (fun _ => 7%Z)
         "Write a short poem about programming." (-2) ["earlier"]))).
    lia.
Defined.

Example measure_consistency_three_samples :
  fst (MinPrompt.measure_consistency (fun n _ => str_of_nat n) (fun _ => 7%Z)
         "Write a short poem about programming." 3 [])
  = Ok {| MinPrompt.prompt := "Write a short poem about programming.";
          MinPrompt.responses := ["0"; "1"; "2"];
          MinPrompt.total_tokens := 21;
          MinPrompt.consistency_score := (1 # 2)%Q |}.
Proof. reflexivity. Qed.
